(** * The SQL statement builder of toptensoftware/sqlite (SQL.js)

    A shallow embedding of the [SQL] class: the accumulator of statement
    text and bind parameters ([append], [parens], [set], the WHERE family),
    the condition compiler ([buildCondition] and its inner
    [build_expression]) and the debug renderer ([toString]).

    Conventions of the embedding.
    - A JavaScript string is a [string]: a sequence of 8-bit code units, so
      [String.length] is the [length] property and the first character is
      [key[0]].
    - A method that can throw returns an [outcome]; one that cannot returns
      its result directly.  A method mutates [this] and returns it: here it
      takes the builder and returns the updated one.
    - A Number is one of integer value that is a safe integer, below
      2^53 in magnitude; an arithmetic result beyond is not represented.
    - Objects are plain data objects: their own enumerable properties, in
      enumeration order, with distinct keys, and behind them the
      properties every object inherits, [hasOwnProperty] among them.
    - [set] compares values with the operator [==], which the embedding
      decides whenever neither operand is an object or a function, and
      [set] and [values] call the property [hasOwnProperty] of the
      mapping, which may be a function of the caller's; [set_] and
      [values_] are [None] where the outcome rests on the identity of
      an object, on its conversion to a primitive or on such a
      function. *)

From Stdlib Require Import ZArith String Ascii List Lia Bool Arith.
From Stdlib Require Import Strings.Byte DecimalString DecimalPos.
Import ListNotations.
Local Open Scope string_scope.

(** ** JavaScript values *)

(** The values that reach the builder.  [VNum n] is a Number whose value is
    the safe integer [n], below 2^53 in magnitude; the Numbers beyond,
    fractions, NaN and the infinities are not represented.
    [VBuffer] is a Node.js [Buffer].  [VSQL text ps] is an instance of the
    [SQL] class whose own properties are [sql] and [params], as [new SQL]
    and [append] leave it. *)
#[warning="-register-all"]
Inductive value : Type :=
| VUndefined
| VNull
| VBool (b : bool)
| VNum (n : Z)
| VBigInt (n : Z)
| VStr (s : string)
| VBuffer (bytes : list byte)
| VArr (elems : list value)
| VObj (props : list (string * value))
| VSQL (text : string) (ps : list value)
| VFunc.

(** A plain object: property names with their values. *)
Definition obj : Type := list (string * value).

(** [typeof v]. *)
Definition typeof (v : value) : string :=
  match v with
  | VUndefined => "undefined"
  | VBool _ => "boolean"
  | VNum _ => "number"
  | VBigInt _ => "bigint"
  | VStr _ => "string"
  | VNull | VBuffer _ | VArr _ | VObj _ | VSQL _ _ => "object"
  | VFunc => "function"
  end.

(** [v == null] (also [v == undefined]): true of [null] and [undefined]
    only. *)
Definition nullish (v : value) : bool :=
  match v with
  | VUndefined | VNull => true
  | _ => false
  end.

(** [v !== undefined]. *)
Definition defined (v : value) : bool :=
  match v with
  | VUndefined => false
  | _ => true
  end.

(** [v === null]. *)
Definition is_null (v : value) : bool :=
  match v with
  | VNull => true
  | _ => false
  end.

(** [v instanceof Function]. *)
Definition is_function (v : value) : bool :=
  match v with
  | VFunc => true
  | _ => false
  end.

(** ToBoolean: what [if (v)] and [v && ...] test. *)
Definition truthy (v : value) : bool :=
  match v with
  | VUndefined | VNull => false
  | VBool b => b
  | VNum n | VBigInt n => negb (n =? 0)%Z
  | VStr s => negb (s =? "")
  | VBuffer _ | VArr _ | VObj _ | VSQL _ _ | VFunc => true
  end.

(** The numeric value of a Boolean, Number or BigInt operand. *)
Definition numeric (v : value) : option Z :=
  match v with
  | VBool b => Some (if b then 1 else 0)%Z
  | VNum n | VBigInt n => Some n
  | _ => None
  end.

(** [Number.isSafeInteger(n)]: the integers a Number holds exactly, with
    their neighbours. *)
Definition safe_integer (n : Z) : bool := (Z.abs n <? 2 ^ 53)%Z.

(** The value of a character as a digit of the radix. *)
Definition digit_value (radix : Z) (c : ascii) : option Z :=
  let n := Z.of_nat (nat_of_ascii c) in
  let d :=
    if (48 <=? n)%Z && (n <=? 57)%Z then (n - 48)%Z
    else if (97 <=? n)%Z && (n <=? 102)%Z then (n - 87)%Z
    else if (65 <=? n)%Z && (n <=? 70)%Z then (n - 55)%Z
    else radix in
  if (d <? radix)%Z then Some d else None.

(** The digits a text begins with: the number they denote after the
    digits read so far, how many have been read, and what follows. *)
Fixpoint digits (radix : Z) (s : string) (value : Z) (count : nat)
  : Z * nat * string :=
  match s with
  | String c rest =>
      match digit_value radix c with
      | Some d => digits radix rest (value * radix + d)%Z (S count)
      | None => (value, count, s)
      end
  | EmptyString => (value, count, s)
  end.

(** The white space and the line terminators of the language among the
    8-bit code units: tab, line feed, vertical tab, form feed, carriage
    return, space and no-break space. *)
Definition is_white_space (c : ascii) : bool :=
  existsb (Nat.eqb (nat_of_ascii c)) [9; 10; 11; 12; 13; 32; 160].

Fixpoint trim_start (s : string) : string :=
  match s with
  | String c rest => if is_white_space c then trim_start rest else s
  | EmptyString => ""
  end.

Fixpoint trim_end (s : string) : string :=
  match s with
  | String c rest =>
      let rest := trim_end rest in
      if is_white_space c && (rest =? "") then "" else String c rest
  | EmptyString => ""
  end.

Definition trim (s : string) : string := trim_end (trim_start s).

(** A sign, if the text begins with one, and what follows it. *)
Definition signed (s : string) : bool * string :=
  match s with
  | String "-" rest => (true, rest)
  | String "+" rest => (false, rest)
  | _ => (false, s)
  end.

(** The exponent of a numeric literal: nothing, or [e] or [E], a sign if
    any, and digits up to the end of the text. *)
Definition exponent_part (s : string) : option Z :=
  match s with
  | EmptyString => Some 0%Z
  | String c rest =>
      if (c =? "e")%char || (c =? "E")%char then
        let '(negative, rest) := signed rest in
        match digits 10 rest 0 0 with
        | (n, S _, EmptyString) => Some (if negative then - n else n)%Z
        | _ => None
        end
      else None
  end.

(** An unsigned decimal literal other than [Infinity]: digits, a point
    and digits on either side of it, one of the sides at least, and an
    exponent.  The value is the first number times ten to the second. *)
Definition unsigned_decimal (s : string) : option (Z * Z) :=
  let '(whole, whole_count, rest) := digits 10 s 0 0 in
  match rest with
  | String "." rest =>
      let '(all, fraction_count, rest) := digits 10 rest whole 0 in
      if (whole_count + fraction_count =? 0)%nat then None
      else
        match exponent_part rest with
        | Some e => Some (all, (e - Z.of_nat fraction_count)%Z)
        | None => None
        end
  | _ =>
      if (whole_count =? 0)%nat then None
      else
        match exponent_part rest with
        | Some e => Some (whole, e)
        | None => None
        end
  end.

(** A binary, octal or hexadecimal integer literal. *)
Definition non_decimal (s : string) : option Z :=
  match s with
  | String "0" (String c rest) =>
      let radix :=
        if (c =? "x")%char || (c =? "X")%char then 16%Z
        else if (c =? "o")%char || (c =? "O")%char then 8%Z
        else if (c =? "b")%char || (c =? "B")%char then 2%Z
        else 0%Z in
      match digits radix rest 0 0 with
      | (n, S _, EmptyString) => Some n
      | _ => None
      end
  | _ => None
  end.

(** The mathematical value of a string that is read as a Number, before
    it is rounded: [(m, e)] stands for [m] times ten to the [e].  [None]
    when the string reads as NaN or as an infinity.  White space around
    the literal is dropped, and the empty string reads as zero. *)
Definition StringToNumber (s : string) : option (Z * Z) :=
  let s := trim s in
  if s =? "" then Some (0, 0)%Z
  else
    match non_decimal s with
    | Some n => Some (n, 0%Z)
    | None =>
        let '(negative, rest) := signed s in
        match unsigned_decimal rest with
        | Some (m, e) => Some ((if negative then - m else m)%Z, e)
        | None => None
        end
    end.

(** The value of a string that is read as a BigInt: an integer literal,
    decimal with a sign if any, or binary, octal or hexadecimal; [None]
    when the string is no such literal. *)
Definition StringToBigInt (s : string) : option Z :=
  let s := trim s in
  if s =? "" then Some 0%Z
  else
    match non_decimal s with
    | Some n => Some n
    | None =>
        let '(negative, rest) := signed s in
        match digits 10 rest 0 0 with
        | (n, S _, EmptyString) => Some (if negative then - n else n)%Z
        | _ => None
        end
    end.

(** The Number nearest to [m] times ten to the [e], ties going to the
    even significand, is the safe integer [n].  The bounds are those of
    the double-precision format: half the distance from [n] to the next
    Number on either side, which below a power of two is half as far as
    above it, and around zero half the least positive Number, 2^-1074.
    Everything is scaled by 2^54, and by the power of ten when the
    exponent is negative, so that the comparisons are between integers;
    the first tests keep the powers small. *)
Definition rounds_to (m e n : Z) : bool :=
  let a := Z.abs m in
  let N := Z.abs n in
  if (a =? 0)%Z then (n =? 0)%Z
  else if (17 <=? e)%Z then false
  else if (Z.log2 a + 1 + 3 * e <=? - 1075)%Z then (n =? 0)%Z
  else
    let scale := (10 ^ Z.max (- e) 0)%Z in
    let x := (a * 2 ^ 54 * 10 ^ Z.max e 0)%Z in
    if (N =? 0)%Z then (e <? 0)%Z && (a * 2 ^ 1075 <=? scale)%Z
    else if negb (Bool.eqb (m <? 0)%Z (n <? 0)%Z) then false
    else
      let k := Z.log2 N in
      let below := if (N =? 2 ^ k)%Z then (2 ^ k)%Z else (2 ^ (k + 1))%Z in
      let low := ((N * 2 ^ 54 - below) * scale)%Z in
      let high := ((N * 2 ^ 54 + 2 ^ (k + 1)) * scale)%Z in
      if (k <? 52)%Z || Z.even N then (low <=? x)%Z && (x <=? high)%Z
      else (low <? x)%Z && (x <? high)%Z.

(** [s == v] for a string [s] and a primitive [v]: strings are compared
    as strings; against a BigInt the string is read as a BigInt, against
    a Number as a Number, and a Boolean counts as the Number 1 or 0. *)
Definition string_equals (s : string) (v : value) : option bool :=
  let number_equals n :=
    match StringToNumber s with
    | Some (m, e) => rounds_to m e n
    | None => false
    end in
  match v with
  | VUndefined | VNull => Some false
  | VStr t => Some (s =? t)
  | VBigInt n =>
      Some match StringToBigInt s with
           | Some k => (k =? n)%Z
           | None => false
           end
  | VNum n => Some (number_equals n)
  | VBool b => Some (number_equals (if b then 1 else 0)%Z)
  | VBuffer _ | VArr _ | VObj _ | VSQL _ _ | VFunc => None
  end.

(** [x == y], the loose equality of the language: [null] and [undefined]
    equal each other and nothing else, a string is compared as
    [string_equals] has it, and Booleans, Numbers and BigInts by numeric
    value.  When an operand is an object or a function and the other is
    neither [null] nor [undefined], the comparison rests on the identity
    of the object or on its conversion to a primitive; the result is
    then [None]. *)
Definition loose_eq (x y : value) : option bool :=
  match x, y with
  | (VUndefined | VNull), _ => Some (nullish y)
  | _, (VUndefined | VNull) => Some false
  | VStr s, _ => string_equals s y
  | _, VStr s => string_equals s x
  | _, _ =>
      match numeric x, numeric y with
      | Some a, Some b => Some (a =? b)%Z
      | _, _ => None
      end
  end.

(** [props[name]] of a plain object; [undefined] when absent. *)
Fixpoint lookup (name : string) (props : obj) : value :=
  match props with
  | [] => VUndefined
  | (k, v) :: rest => if k =? name then v else lookup name rest
  end.

(** [props[name] = v]: overwrites the property in place or adds it last. *)
Fixpoint assign (name : string) (v : value) (props : obj) : obj :=
  match props with
  | [] => [(name, v)]
  | (k, w) :: rest =>
      if k =? name then (k, v) :: rest else (k, w) :: assign name v rest
  end.

(** The object has a property of that name of its own. *)
Definition has_own (name : string) (props : obj) : bool :=
  existsb (fun kv => fst kv =? name) props.

(** The names of the properties every object inherits from
    [Object.prototype]. *)
Definition inherited : list string :=
  ["constructor"; "hasOwnProperty"; "isPrototypeOf";
   "propertyIsEnumerable"; "toLocaleString"; "toString"; "valueOf";
   "__defineGetter__"; "__defineSetter__"; "__lookupGetter__";
   "__lookupSetter__"; "__proto__"].

(** [props[name]] for any name: the property of the object itself if it
    has one, else the inherited one, a function or, for [__proto__], the
    prototype, an object without enumerable property; [undefined] when
    there is neither. *)
Definition property (props : obj) (name : string) : value :=
  if has_own name props then lookup name props
  else if existsb (String.eqb name) inherited then
    if name =? "__proto__" then VObj [] else VFunc
  else VUndefined.

(** [props[name] = v] on an object made by [{}]: the name [__proto__]
    goes to the inherited setter and leaves the properties as they
    are. *)
Definition record (name : string) (v : value) (props : obj) : obj :=
  if name =? "__proto__" then props else assign name v props.

(** [key[0]=='$' || key[0]=='.']: the key is a marker, not a column. *)
Definition reserved (key : string) : bool :=
  match key with
  | String c _ => (c =? "$")%char || (c =? ".")%char
  | EmptyString => false
  end.

(** Decimal digits of an integer: [toString()] of a BigInt, and of a
    Number, whose value is a safe integer. *)
Definition number_toString (n : Z) : string :=
  NilZero.string_of_int (Z.to_int n).

(** Decimal digits of an array index. *)
Definition index_toString (i : nat) : string :=
  NilZero.string_of_uint (Nat.to_uint i).

Definition hex_digit (n : N) : ascii :=
  nth (N.to_nat n)
    (list_ascii_of_string "0123456789abcdef") "0"%char.

(** [buffer.toString("hex")]: two lower-case digits a byte. *)
Fixpoint hex (bytes : list byte) : string :=
  match bytes with
  | [] => ""
  | b :: rest =>
      let n := Byte.to_N b in
      String (hex_digit (n / 16)) (String (hex_digit (n mod 16)) (hex rest))
  end.

(** The one-character strings of a string. *)
Fixpoint chars (s : string) : list value :=
  match s with
  | EmptyString => []
  | String c rest => VStr (String c "") :: chars rest
  end.

(** ** Outcomes *)

(** What a call can throw: a [TypeError] of the engine (a property of
    [undefined] or [null] is read, a value that is not iterable is
    iterated), a [RangeError] of the engine (an array of an impossible
    length is asked for), or an [Error] the code itself constructs. *)
Inductive error : Type :=
| TypeError
| RangeError
| Error (message : string).

(** The outcome of a call that may throw.  [OutOfFuel] belongs to the
    recursion of [build_expression] alone, see
    [build_expression_terminates]. *)
Inductive outcome (A : Type) : Type :=
| Returns (a : A)
| Throws (e : error)
| OutOfFuel.

Arguments Returns {A} a.
Arguments Throws {A} e.
Arguments OutOfFuel {A}.

Definition bind {A B : Type} (m : outcome A) (k : A -> outcome B)
  : outcome B :=
  match m with
  | Returns a => k a
  | Throws e => Throws e
  | OutOfFuel => OutOfFuel
  end.

Declare Scope outcome_scope.
Delimit Scope outcome_scope with outcome.
Notation "x <- m ;; k" := (bind m (fun x => k))
  (at level 61, m at next level, right associativity) : outcome_scope.
Notation "' p <- m ;; k" := (bind m (fun x => let p := x in k))
  (at level 61, p pattern, m at next level, right associativity)
  : outcome_scope.
Local Open Scope outcome_scope.

(** A call whose outcome the embedding may leave open: [None] where it
    rests on what the values do not tell, the identity of an object, its
    conversion to a primitive or a function of the caller's. *)
Definition bind_open {A B : Type} (m : option (outcome A))
  (k : A -> option (outcome B)) : option (outcome B) :=
  match m with
  | Some (Returns a) => k a
  | Some (Throws e) => Some (Throws e)
  | Some OutOfFuel => Some OutOfFuel
  | None => None
  end.

(** A loop whose body may throw: [for (x of xs) st = body(st, x)]. *)
Fixpoint for_each {A S : Type} (body : S -> A -> outcome S)
  (xs : list A) (st : S) : outcome S :=
  match xs with
  | [] => Returns st
  | x :: rest => st' <- body st x ;; for_each body rest st'
  end.

(** [v.name] for an operator name [$...]: reading a property of
    [undefined] or [null] throws, a plain object has it or not, and no
    other value has a property of such a name. *)
Definition get (v : value) (name : string) : outcome value :=
  match v with
  | VUndefined | VNull => Throws TypeError
  | VObj props => Returns (lookup name props)
  | _ => Returns VUndefined
  end.

(** [Array(v.length)], as far as it can throw: the length of [undefined]
    and of [null] cannot be read, and a number that is not below 2^32 or
    is negative is no length of an array.  A plain object has the length
    it carries; an array, a buffer and a string have theirs, which is a
    length of an array; of any other length, a number or not, an array
    is made. *)
Definition array_of_length (v : value) : outcome unit :=
  match v with
  | VUndefined | VNull => Throws TypeError
  | VObj props =>
      match lookup "length" props with
      | VNum n =>
          if (0 <=? n)%Z && (n <? 2 ^ 32)%Z then Returns tt
          else Throws RangeError
      | _ => Returns tt
      end
  | _ => Returns tt
  end.

(** The values a [for (e of v)] loop visits: the elements of an array, the
    bytes of a buffer, the characters of a string.  Nothing else here is
    iterable. *)
Definition iterate (v : value) : outcome (list value) :=
  match v with
  | VArr elems => Returns elems
  | VBuffer bytes => Returns (map (fun b => VNum (Z.of_N (Byte.to_N b))) bytes)
  | VStr s => Returns (chars s)
  | _ => Throws TypeError
  end.

(** Pairs every element with its index, counted from [i]. *)
Fixpoint indexed (i : nat) (xs : list value) : obj :=
  match xs with
  | [] => []
  | x :: rest => (index_toString i, x) :: indexed (S i) rest
  end.

(** [Object.entries(v)]: it throws on [undefined] and [null]; a primitive
    or a function has no enumerable property of its own. *)
Definition entries (v : value) : outcome obj :=
  match v with
  | VUndefined | VNull => Throws TypeError
  | VObj props => Returns props
  | VArr elems => Returns (indexed 0 elems)
  | VBuffer bytes =>
      Returns (indexed 0 (map (fun b => VNum (Z.of_N (Byte.to_N b))) bytes))
  | VStr s => Returns (indexed 0 (chars s))
  | VSQL text ps => Returns [("sql", VStr text); ("params", VArr ps)]
  | VBool _ | VNum _ | VBigInt _ | VFunc => Returns []
  end.

(** [xs.push(x)]. *)
Definition push {A : Type} (xs : list A) (x : A) : list A :=
  (xs ++ [x])%list.

(** ** The builder *)

(** An instance of [SQL]: [this.sql], [this.params], [this.hasWhere]
    ([false] when the property is absent) and [this.values] (absent until
    [set] records the mapping it was given). *)
Record SQL : Type := mkSQL {
  sql : string;
  params : list value;
  hasWhere : bool;
  values : option obj
}.

(** The first argument of [append]: nothing ([undefined] or [null]), a
    text, or another builder, given by its [sql] and [params]. *)
Inductive fragment : Type :=
| Absent
| Text (s : string)
| Builder (text : string) (ps : list value).

Definition as_fragment (b : SQL) : fragment := Builder (sql b) (params b).

(** [delete this.hasWhere]. *)
Definition delete_hasWhere (this : SQL) : SQL :=
  mkSQL (sql this) (params this) false (values this).

(** [this.hasWhere = true]. *)
Definition set_hasWhere (this : SQL) : SQL :=
  mkSQL (sql this) (params this) true (values this).

(** The part of [append] that follows the tests of its first argument,
    once that is a text: the arguments after the first are [rest], the
    parameter [params] is the first of them. *)
Definition append_text (this : SQL) (text : string) (rest : list value)
  : SQL :=
  let sql' :=
    if (1 <? String.length (sql this))%nat then sql this ++ " " ++ text
    else text in
  let params' :=
    match rest with
    | [] | VUndefined :: _ => params this
    | VArr elems :: _ => (params this ++ elems)%list
    | _ :: _ => (params this ++ rest)%list
    end in
  mkSQL sql' params' (hasWhere this) (values this).

(** [append(sql, params)].  Appending a builder calls [append] again with
    its text and its parameter array. *)
Definition append (this : SQL) (sql : fragment) (rest : list value) : SQL :=
  let this := delete_hasWhere this in
  match sql with
  | Absent => this
  | Builder text ps => append_text (delete_hasWhere this) text [VArr ps]
  | Text text => append_text this text rest
  end.

(** [new SQL(sql, params)]. *)
Definition new_SQL (sql : fragment) (rest : list value) : SQL :=
  append (mkSQL "" [] false None) sql rest.

(** [parens(sql, params)]. *)
Definition parens (this : SQL) (sql : fragment) (rest : list value) : SQL :=
  let this := append this (Text "(") [] in
  let this := append this sql rest in
  append this (Text ")") [].

(** ** Debug rendering *)

(** [str.replace(/'/g, "''")]. *)
Fixpoint double_quotes (str : string) : string :=
  match str with
  | EmptyString => ""
  | String c rest =>
      if (c =? "'")%char then String c (String c (double_quotes rest))
      else String c (double_quotes rest)
  end.

Definition quoteString (str : string) : string :=
  "'" ++ double_quotes str ++ "'".

Definition invalid_parameter_type (pv : value) : error :=
  Error ("Invalid parameter type: '" ++ typeof pv
         ++ "' must be number, string, bigint, buffer, or null").

(** The body of the callback of [toString] once [pv] is taken from
    [this.params]. *)
Definition render (pv : value) : outcome string :=
  if nullish pv then Returns "NULL"
  else
    match pv with
    | VStr s => Returns (quoteString s)
    | VBuffer bytes => Returns ("X'" ++ hex bytes ++ "'")
    | VBigInt n | VNum n => Returns (number_toString n)
    | _ => Throws (invalid_parameter_type pv)
    end.

(** [text.replace(/\?/g, callback)]: the matches are visited from left to
    right, [paramIndex] counts the parameters taken so far. *)
Fixpoint replace_placeholders (text : string) (params : list value)
  (paramIndex : nat) : outcome string :=
  match text with
  | EmptyString => Returns ""
  | String c rest =>
      if (c =? "?")%char then
        if (paramIndex <? List.length params)%nat then
          lit <- render (nth paramIndex params VUndefined) ;;
          out <- replace_placeholders rest params (S paramIndex) ;;
          Returns (lit ++ out)
        else
          out <- replace_placeholders rest params paramIndex ;;
          Returns (String c out)
      else
        out <- replace_placeholders rest params paramIndex ;;
        Returns (String c out)
  end.

(** [toString()]. *)
Definition toString (this : SQL) : outcome string :=
  replace_placeholders (sql this) (params this) 0.

(** ** UPDATE ... SET *)

(** The two ways [set(values, originalValues)] is called: with a text, and
    then whatever follows it goes to [append] with it; or with a mapping
    of columns to values and, optionally, the mapping of their original
    values. *)
Inductive set_arguments : Type :=
| SetText (values : string) (rest : list value)
| SetValues (values : obj) (originalValues : option obj).

(** [values.hasOwnProperty === undefined || values.hasOwnProperty(key)]
    for a mapping: a property [hasOwnProperty] of its own hides the
    inherited method; the test passes without a call when it is
    [undefined], the call throws when it is no function, and what a
    function of the caller's returns is left open.  The inherited method
    tells whether the mapping has the key itself. *)
Definition hasOwnProperty (values : obj) (key : string)
  : option (outcome bool) :=
  if has_own "hasOwnProperty" values then
    match lookup "hasOwnProperty" values with
    | VUndefined => Some (Returns true)
    | VFunc => None
    | _ => Some (Throws TypeError)
    end
  else Some (Returns (has_own key values)).

(** [originalValues && originalValues[key]
     && originalValues[key] == values[key]], for [v] the value of
    [values[key]]. *)
Definition unchanged (originalValues : option obj) (key : string)
  (v : value) : option bool :=
  match originalValues with
  | None => Some false
  | Some original =>
      if truthy (property original key)
      then loose_eq (property original key) v
      else Some false
  end.

(** The text [set] emits for a column. *)
Definition assignment (key : string) : string := "`" ++ key ++ "` = ?".

(** One turn of the loop [for (let key in values)] of [set], on the state
    [(this.values, setExpressions, paramValues)]. *)
Definition set_step (values : obj) (originalValues : option obj)
  (st : obj * list string * list value) (kv : string * value)
  : option (outcome (obj * list string * list value)) :=
  let '(recorded, setExpressions, paramValues) := st in
  let '(key, v) := kv in
  if reserved key then Some (Returns st)
  else
    bind_open (hasOwnProperty values key) (fun own =>
      if own && negb (is_function v) then
        let recorded := record key v recorded in
        match unchanged originalValues key v with
        | None => None
        | Some true => Some (Returns (recorded, setExpressions, paramValues))
        | Some false =>
            Some (Returns (recorded, push setExpressions (assignment key),
                           push paramValues v))
        end
      else Some (Returns st)).

Fixpoint set_loop (values : obj) (originalValues : option obj)
  (keys : obj) (st : obj * list string * list value)
  : option (outcome (obj * list string * list value)) :=
  match keys with
  | [] => Some (Returns st)
  | kv :: rest =>
      bind_open (set_step values originalValues st kv)
        (set_loop values originalValues rest)
  end.

(** [set(values, originalValues)]. *)
Definition set_ (this : SQL) (arguments : set_arguments)
  : option (outcome SQL) :=
  let this := append this (Text "SET") [] in
  match arguments with
  | SetText values rest => Some (Returns (append this (Text values) rest))
  | SetValues values originalValues =>
      bind_open (set_loop values originalValues values ([], [], []))
        (fun '(recorded, setExpressions, paramValues) =>
           let this :=
             mkSQL (sql this) (params this) (hasWhere this)
               (Some recorded) in
           Some (Returns
                   (append this (Text (String.concat "," setExpressions))
                      [VArr paramValues])))
  end.

(** ** The condition compiler *)

(** How deep arrays and objects are nested in a value. *)
Fixpoint depth (v : value) : nat :=
  match v with
  | VArr elems => S (list_max (map depth elems))
  | VObj props => S (list_max (map (fun kv => depth (snd kv)) props))
  | _ => 0
  end.

(** [Array(n).fill("?").join(',')], for [n] a length. *)
Definition placeholders (n : nat) : string :=
  String.concat "," (repeat "?" n).

(** [build_expression(v)] for the column [key], on the state
    [(sql, params)] of the enclosing [buildCondition]: the expressions
    compiled so far and the parameters bound so far.  The function calls
    itself on the members of [$or], [$and] and [$not]; [fuel] bounds the
    depth of these calls. *)
Fixpoint build_expression (fuel : nat) (key : string) (v : value)
  (st : list string * list value) : outcome (list string * list value) :=
  match fuel with
  | O => OutOfFuel
  | S fuel =>
      let '(sql, params) := st in
      if is_null v then
        Returns (push sql ("`" ++ key ++ "` IS NULL"), params) else
      ne <- get v "$ne" ;;
      if defined ne then
        Returns (push sql ("`" ++ key ++ "` <> ?"), push params ne) else
      lt <- get v "$lt" ;;
      if defined lt then
        Returns (push sql ("`" ++ key ++ "` < ?"), push params lt) else
      gt <- get v "$gt" ;;
      if defined gt then
        Returns (push sql ("`" ++ key ++ "` > ?"), push params gt) else
      lte <- get v "$lte" ;;
      if defined lte then
        Returns (push sql ("`" ++ key ++ "` <= ?"), push params lte) else
      gte <- get v "$gte" ;;
      if defined gte then
        Returns (push sql ("`" ++ key ++ "` >= ?"), push params gte) else
      le <- get v "$le" ;;
      if defined le then
        Returns (push sql ("`" ++ key ++ "` <= ?"), push params le) else
      ge <- get v "$ge" ;;
      if defined ge then
        Returns (push sql ("`" ++ key ++ "` >= ?"), push params ge) else
      eq <- get v "$eq" ;;
      if defined eq then
        Returns (push sql ("`" ++ key ++ "` = ?"), push params ge) else
      like <- get v "$like" ;;
      if defined like then
        Returns (push sql ("`" ++ key ++ "` LIKE ?"), push params like) else
      glob <- get v "$glob" ;;
      if defined glob then
        Returns (push sql ("`" ++ key ++ "` GLOB ?"), push params glob) else
      is_ <- get v "$is" ;;
      if is_null is_ then
        Returns (push sql ("`" ++ key ++ "` IS NULL"), params) else
      isnot <- get v "$isnot" ;;
      if is_null isnot then
        Returns (push sql ("`" ++ key ++ "` IS NOT NULL"), params) else
      in_ <- get v "$in" ;;
      if defined in_ then
        match in_ with
        | VSQL text ps =>
            Returns (push sql ("`" ++ key ++ "` IN (" ++ text ++ ")"),
                     (params ++ ps)%list)
        | _ =>
            _ <- array_of_length in_ ;;
            elems <- iterate in_ ;;
            Returns
              (push sql
                 ("`" ++ key ++ "` IN (" ++ placeholders (List.length elems)
                  ++ ")"),
               (params ++ elems)%list)
        end
      else
      nin <- get v "$nin" ;;
      if defined nin then
        _ <- array_of_length in_ ;;
        elems <- iterate in_ ;;
        Returns
          (push sql
             ("`" ++ key ++ "` NOT IN (" ++ placeholders (List.length elems)
              ++ ")"),
           (params ++ elems)%list)
      else
      or <- get v "$or" ;;
      if defined or then
        subs <- iterate or ;;
        ' (sub_sql, params) <-
          for_each (fun st sub => build_expression fuel key sub st)
            subs ([], params) ;;
        Returns (push sql ("(" ++ String.concat " OR " sub_sql ++ ")"), params)
      else
      and <- get v "$and" ;;
      if defined and then
        subs <- iterate and ;;
        ' (sub_sql, params) <-
          for_each (fun st sub => build_expression fuel key sub st)
            subs ([], params) ;;
        Returns
          (push sql ("(" ++ String.concat " AND " sub_sql ++ ")"), params)
      else
      not <- get v "$not" ;;
      if defined not then
        not_is <- get not "$is" ;;
        if is_null not_is then
          Returns (push sql ("`" ++ key ++ "` IS NOT NULL"), params)
        else
          ' (sub_sql, params) <- build_expression fuel key not ([], params) ;;
          Returns
            (push sql ("NOT (" ++ String.concat "," sub_sql ++ ")"), params)
      else
      Returns (push sql (key ++ " = ?"), push params v)
  end.

(** [SQL.buildCondition(condition, ...)], on its [arguments]. *)
Definition buildCondition (arguments : list value) : outcome fragment :=
  let condition := nth 0 arguments VUndefined in
  match condition with
  | VSQL text ps => Returns (Builder text ps)
  | VStr text =>
      let sql := new_SQL Absent [] in
      Returns (as_fragment (append sql (Text text) (tl arguments)))
  | _ =>
      props <- entries condition ;;
      ' (sql, params) <-
        for_each
          (fun st kv =>
             let '(key, value) := kv in
             if reserved key then Returns st
             else build_expression (S (depth value)) key value st)
          props ([], []) ;;
      if (List.length sql =? 0)%nat then Returns (Text "TRUE")
      else
        Returns
          (as_fragment
             (new_SQL (Text ("(" ++ String.concat " AND " sql ++ ")"))
                [VArr params]))
  end.

(** ** The WHERE family *)

(** [where(condition, ...params)]. *)
Definition where_ (this : SQL) (arguments : list value) : outcome SQL :=
  if (List.length arguments =? 0)%nat
     || ((List.length arguments =? 1)%nat
         && nullish (nth 0 arguments VUndefined))
  then Returns this
  else
    let this := append this (Text "WHERE") [] in
    condition <- buildCondition arguments ;;
    let this := append this condition [] in
    Returns (set_hasWhere this).

(** [and(condition, ...params)]. *)
Definition and_ (this : SQL) (arguments : list value) : outcome SQL :=
  let this := append this (Text "AND") [] in
  condition <- buildCondition arguments ;;
  Returns (append this condition []).

(** [or(condition, ...params)]. *)
Definition or_ (this : SQL) (arguments : list value) : outcome SQL :=
  let this := append this (Text "OR") [] in
  condition <- buildCondition arguments ;;
  Returns (append this condition []).

(** [on(condition, ...params)]. *)
Definition on (this : SQL) (arguments : list value) : outcome SQL :=
  let this := append this (Text "ON") [] in
  condition <- buildCondition arguments ;;
  Returns (append this condition []).

(** [andWhere(condition, ...params)]. *)
Definition andWhere (this : SQL) (arguments : list value) : outcome SQL :=
  this <- (if hasWhere this then and_ this arguments
           else where_ this arguments) ;;
  Returns (set_hasWhere this).

(** [orWhere(condition, ...params)]. *)
Definition orWhere (this : SQL) (arguments : list value) : outcome SQL :=
  this <- (if hasWhere this then or_ this arguments
           else where_ this arguments) ;;
  Returns (set_hasWhere this).

(** ** Vocabulary of the statements *)

(** The builder [new SQL()] starts from. *)
Definition empty : SQL := mkSQL "" [] false None.

(** The positions at which [needle] occurs in [text], counted from
    [from]. *)
Fixpoint occurrences (needle text : string) (from : nat) : list nat :=
  match text with
  | EmptyString => []
  | String _ rest =>
      ((if prefix needle text then [from] else [])
       ++ occurrences needle rest (S from))%list
  end.

(** The number of placeholders [?] of a text. *)
Fixpoint count_placeholders (text : string) : nat :=
  match text with
  | EmptyString => 0
  | String c rest =>
      (if (c =? "?")%char then 1 else 0) + count_placeholders rest
  end.

(** The operator keys [build_expression] tests before [$eq]. *)
Definition before_eq : list string :=
  ["$ne"; "$lt"; "$gt"; "$lte"; "$gte"; "$le"; "$ge"].

(** The operator keys [build_expression] tests for a value before
    [$nin], [$is] and [$isnot] apart, which it tests for [null]. *)
Definition before_nin : list string :=
  (before_eq ++ ["$eq"; "$like"; "$glob"; "$in"])%list.

(** The object carries the operator: its value is not [undefined]. *)
Definition carries (props : obj) (operator : string) : bool :=
  defined (lookup operator props).

(** A plain scalar: a Boolean, a Number, a BigInt or a string. *)
Definition scalar (v : value) : bool :=
  match v with
  | VBool _ | VNum _ | VBigInt _ | VStr _ => true
  | _ => false
  end.

(** The parameter types [toString] renders; a Number is a safe
    integer. *)
Definition supported (pv : value) : bool :=
  match pv with
  | VUndefined | VNull | VStr _ | VBigInt _ | VBuffer _ => true
  | VNum n => safe_integer n
  | VBool _ | VArr _ | VObj _ | VSQL _ _ | VFunc => false
  end.

(** The parameter types [toString] refuses: neither [null] nor
    [undefined], nor a string, a Number, a BigInt or a buffer. *)
Definition unsupported (pv : value) : bool :=
  match pv with
  | VBool _ | VArr _ | VObj _ | VSQL _ _ | VFunc => true
  | _ => false
  end.

(** The pieces of a text between the occurrences of a character. *)
Fixpoint split_at (sep : ascii) (text : string) : list string :=
  match text with
  | EmptyString => [""]
  | String c rest =>
      if (c =? sep)%char then "" :: split_at sep rest
      else
        match split_at sep rest with
        | piece :: pieces => String c piece :: pieces
        | [] => [String c ""]
        end
  end.

(** The decimal digits of a natural number before those of [acc], the
    last digit first: the remainders of the divisions by ten. *)
Fixpoint spec_digits (fuel : nat) (n : Z) (acc : string) : string :=
  let acc := String (ascii_of_nat (48 + Z.to_nat (n mod 10))) acc in
  match fuel with
  | O => acc
  | S fuel => if (n <? 10)%Z then acc else spec_digits fuel (n / 10) acc
  end.

(** An integer in unquoted decimal digits: a minus sign when it is
    negative, then the digits of its magnitude, without leading zero. *)
Definition spec_decimal (n : Z) : string :=
  let digits_of m := spec_digits (Z.to_nat (Z.log2 m)) m "" in
  if (n <? 0)%Z then "-" ++ digits_of (- n)%Z else digits_of n.

(** The rendering of a parameter as the specification words it: [NULL],
    decimal digits, the string between single quotes with each of its
    single quotes doubled, a hexadecimal literal. *)
Definition spec_literal (pv : value) : string :=
  match pv with
  | VUndefined | VNull => "NULL"
  | VNum n | VBigInt n => spec_decimal n
  | VStr s => "'" ++ String.concat "''" (split_at "'" s) ++ "'"
  | VBuffer bytes => "X'" ++ hex bytes ++ "'"
  | _ => ""
  end.

(** The pieces of a text between its placeholders. *)
Definition spec_split (text : string) : list string := split_at "?" text.

(** The pieces put together again, each gap filled with the next literal
    or, when the literals have run out, with the placeholder itself. *)
Fixpoint spec_substitute (pieces literals : list string) : string :=
  match pieces with
  | [] => ""
  | [piece] => piece
  | piece :: rest =>
      match literals with
      | lit :: literals => piece ++ lit ++ spec_substitute rest literals
      | [] => piece ++ "?" ++ spec_substitute rest []
      end
  end.

(** The columns [set] keeps: not a marker key, not a function. *)
Definition retained (kv : string * value) : bool :=
  negb (reserved (fst kv)) && negb (is_function (snd kv)).

(** The column is left out of the SET list: its original value is truthy
    and loosely equal to its new value. *)
Definition elided (original : obj) (kv : string * value) : bool :=
  truthy (property original (fst kv))
  && match loose_eq (property original (fst kv)) (snd kv) with
     | Some b => b
     | None => false
     end.

(** [loose_eq] decides the comparison [set] makes for the column, if it
    makes one. *)
Definition decided (original : obj) (kv : string * value) : bool :=
  negb (retained kv)
  || negb (truthy (property original (fst kv)))
  || match loose_eq (property original (fst kv)) (snd kv) with
     | Some _ => true
     | None => false
     end.

(** [set] makes no comparison for the column: it is not retained, or its
    original value is falsy, [undefined] for a column the original
    mapping does not have. *)
Definition original_falsy (original : obj) (kv : string * value) : bool :=
  negb (retained kv) || negb (truthy (property original (fst kv))).

(** The mapping [this.values] holds once the columns have been assigned
    to it in their order. *)
Definition recorded_from (columns : obj) (recorded : obj) : obj :=
  fold_left (fun r kv => record (fst kv) (snd kv) r) columns recorded.

(** What [set] does with the retained columns [kept] of a mapping once
    it has added SET: it stores them in [this.values] and appends their
    assignments, joined by commas, binding their values. *)
Definition assigned (this : SQL) (kept : obj) : SQL :=
  append
    (mkSQL (sql (append this (Text "SET") [])) (params this) false
       (Some (recorded_from kept [])))
    (Text (String.concat "," (map (fun kv => assignment (fst kv)) kept)))
    [VArr (map snd kept)].

(** Neither [null] nor [undefined], nor an object or a function. *)
Definition primitive (v : value) : bool :=
  match v with
  | VUndefined | VNull | VBool _ | VNum _ | VBigInt _ | VStr _ => true
  | VBuffer _ | VArr _ | VObj _ | VSQL _ _ | VFunc => false
  end.

(** The mapping does not hide the method [hasOwnProperty] every object
    inherits: it has no property of that name, or one that is
    [undefined]. *)
Definition ordinary (values : obj) : bool :=
  negb (defined (lookup "hasOwnProperty" values)).

(** The embedding decides every comparison [set] makes for the mapping
    with the original values, if there are any. *)
Definition comparable (originalValues : option obj) (values : obj) : bool :=
  match originalValues with
  | Some original => forallb (decided original) values
  | None => true
  end.

(** ** The clause methods *)

(** [insert(sql, params)]; a call without arguments has [Absent] for
    [sql]. *)
Definition insert (this : SQL) (sql : fragment) (rest : list value) : SQL :=
  let this := append this (Text "INSERT INTO") [] in
  append this sql rest.

(** [delete(sql, params)]. *)
Definition delete (this : SQL) (sql : fragment) (rest : list value) : SQL :=
  let this := append this (Text "DELETE FROM") [] in
  append this sql rest.

(** [update(sql, params)]. *)
Definition update (this : SQL) (sql : fragment) (rest : list value) : SQL :=
  let this := append this (Text "UPDATE") [] in
  append this sql rest.

(** [insertOrReplace(sql, params)]. *)
Definition insertOrReplace (this : SQL) (sql : fragment)
  (rest : list value) : SQL :=
  let this := append this (Text "INSERT OR REPLACE INTO") [] in
  append this sql rest.

(** [insertOrIgnore(sql, params)]. *)
Definition insertOrIgnore (this : SQL) (sql : fragment)
  (rest : list value) : SQL :=
  let this := append this (Text "INSERT OR IGNORE INTO") [] in
  append this sql rest.

(** [from(sql, params)]. *)
Definition from (this : SQL) (sql : fragment) (rest : list value) : SQL :=
  let this := append this (Text "FROM") [] in
  append this sql rest.

(** [orderBy(sql, params)]. *)
Definition orderBy (this : SQL) (sql : fragment) (rest : list value) : SQL :=
  let this := append this (Text "ORDER BY") [] in
  append this sql rest.

(** [groupBy(sql, params)]. *)
Definition groupBy (this : SQL) (sql : fragment) (rest : list value) : SQL :=
  let this := append this (Text "GROUP BY") [] in
  append this sql rest.

(** [leftJoin(sql, params)]. *)
Definition leftJoin (this : SQL) (sql : fragment) (rest : list value) : SQL :=
  let this := append this (Text "LEFT JOIN") [] in
  append this sql rest.

(** The ways [select] is called: without arguments; with a text and what
    follows it; with a mapping of aliases to expressions, which are
    texts; with an array of texts. *)
Inductive select_arguments : Type :=
| SelectNone
| SelectText (sql : string) (rest : list value)
| SelectMap (columns : list (string * string)) (rest : list value)
| SelectList (columns : list string) (rest : list value).

(** The array with its indices for keys, as [Object.keys] and
    [args[x]] see it. *)
Fixpoint indexed_texts (i : nat) (xs : list string)
  : list (string * string) :=
  match xs with
  | [] => []
  | x :: rest => (index_toString i, x) :: indexed_texts (S i) rest
  end.

(** [args[x] + " as `" + x + "`"], for the key [x] and the text
    [args[x]]. *)
Definition aliased (column : string * string) : string :=
  snd column ++ " as `" ++ fst column ++ "`".

(** [select(...)].  An array is an object for [typeof], so it is first
    rewritten like a mapping, its indices being the keys, and what is
    joined afterwards is the rewritten array. *)
Definition select (this : SQL) (arguments : select_arguments) : SQL :=
  let this := append this (Text "SELECT") [] in
  match arguments with
  | SelectNone => append this (Text "*") []
  | SelectText sql rest => append this (Text sql) rest
  | SelectMap columns rest =>
      append this (Text (String.concat ", " (map aliased columns))) rest
  | SelectList columns rest =>
      append this
        (Text (String.concat ", " (map aliased (indexed_texts 0 columns))))
        rest
  end.

(** The ways [values] is called: with an array of column names, which
    are texts, or with a mapping of columns to values. *)
Inductive values_arguments : Type :=
| ValuesColumns (columnNames : list string)
| ValuesMap (values : obj).

(** One turn of the loop [for (let key in values)] of [values], on the
    state [(this.values, columnNames, params, paramValues)]; the local
    array [params] of the source, which holds the placeholders, is
    [marks] here. *)
Definition values_step (values : obj)
  (st : obj * list string * list string * list value)
  (kv : string * value)
  : option (outcome (obj * list string * list string * list value)) :=
  let '(recorded, columnNames, marks, paramValues) := st in
  let '(key, v) := kv in
  if reserved key then Some (Returns st)
  else
    bind_open (hasOwnProperty values key) (fun own =>
      if own && negb (is_function v) && defined v then
        Some (Returns
                (record key v recorded, push columnNames ("`" ++ key ++ "`"),
                 push marks "?", push paramValues v))
      else Some (Returns st)).

Fixpoint values_loop (values keys : obj)
  (st : obj * list string * list string * list value)
  : option (outcome (obj * list string * list string * list value)) :=
  match keys with
  | [] => Some (Returns st)
  | kv :: rest =>
      bind_open (values_step values st kv) (values_loop values rest)
  end.

(** The call [this.values(values)].  Once [set] or [values] has stored a
    mapping in the property [values] of the builder, that property hides
    the method and the call throws. *)
Definition values_ (this : SQL) (arguments : values_arguments)
  : option (outcome SQL) :=
  match values this with
  | Some _ => Some (Throws TypeError)
  | None =>
      match arguments with
      | ValuesColumns columnNames =>
          let marks := repeat "?" (List.length columnNames) in
          Some (Returns
                  (append this
                     (Text ("(" ++ String.concat "," columnNames
                            ++ ") VALUES (" ++ String.concat "," marks
                            ++ ")"))
                     [VArr []]))
      | ValuesMap values =>
          bind_open (values_loop values values ([], [], [], []))
            (fun '(recorded, columnNames, marks, paramValues) =>
               let this :=
                 mkSQL (sql this) (params this) (hasWhere this)
                   (Some recorded) in
               Some (Returns
                       (append this
                          (Text ("(" ++ String.concat "," columnNames
                                 ++ ") VALUES (" ++ String.concat "," marks
                                 ++ ")"))
                          [VArr paramValues])))
      end
  end.

(** [in(...)]: a builder goes between parentheses, and whatever follows
    it is dropped. *)
Definition in_ (this : SQL) (sql : fragment) (rest : list value) : SQL :=
  let this := append this (Text "IN") [] in
  match sql with
  | Builder text ps => parens this (Builder text ps) []
  | _ => append this sql rest
  end.

(** [limit(rows)]. *)
Definition limit (this : SQL) (rows : value) : SQL :=
  append this (Text "LIMIT ?") [rows].

(** [skipTake(skip, take)]. *)
Definition skipTake (this : SQL) (skip take : value) : SQL :=
  append this (Text "LIMIT ?, ?") [VArr [skip; take]].

(** [takePage(page, rowsPerPage)], for Numbers that are safe integers.
    The difference of [page] and one is exact, and the product is the
    product of the integers when that is a safe integer; otherwise the
    product is rounded and the result is a Number the embedding does not
    represent: [None]. *)
Definition takePage (this : SQL) (page rowsPerPage : Z) : option SQL :=
  if safe_integer page && safe_integer rowsPerPage
     && safe_integer ((page - 1) * rowsPerPage)
  then
    Some (append this (Text "LIMIT ?, ?")
            [VArr [VNum ((page - 1) * rowsPerPage); VNum rowsPerPage]])
  else None.

(** [param(value)]. *)
Definition param (this : SQL) (v : value) : SQL :=
  mkSQL (sql this) (push (params this) v) (hasWhere this)
    (values this).

(** ** The static methods *)

(** [SQL.select(...)]. *)
Definition SQL_select (arguments : select_arguments) : SQL :=
  let sql := new_SQL Absent [] in
  select sql arguments.

(** [SQL.delete(...)]. *)
Definition SQL_delete (sql : fragment) (rest : list value) : SQL :=
  delete (new_SQL Absent []) sql rest.

(** [SQL.update(...)]. *)
Definition SQL_update (sql : fragment) (rest : list value) : SQL :=
  update (new_SQL Absent []) sql rest.

(** [SQL.insert(...)]. *)
Definition SQL_insert (sql : fragment) (rest : list value) : SQL :=
  insert (new_SQL Absent []) sql rest.

(** [SQL.insertOrIgnore(...)]. *)
Definition SQL_insertOrIgnore (sql : fragment) (rest : list value) : SQL :=
  insertOrIgnore (new_SQL Absent []) sql rest.

(** [SQL.insertOrReplace(...)]. *)
Definition SQL_insertOrReplace (sql : fragment) (rest : list value) : SQL :=
  insertOrReplace (new_SQL Absent []) sql rest.

(** ** Side data for custom functions *)

(** [fndata(data)], on the builder and its property [_fndata], which is
    absent until the first call. *)
Definition fndata (this : SQL) (_fndata : option (list value))
  (data : value) : SQL * option (list value) :=
  let store :=
    match _fndata with
    | None => []
    | Some store => store
    end in
  (mkSQL (sql this)
     (push (params this) (VNum (Z.of_nat (List.length store))))
     (hasWhere this) (values this),
   Some (push store data)).

(** ** Tables and indices *)

(** A mapping whose values are texts: a column with its type, or with
    its order. *)
Definition dict : Type := list (string * string).

(** [dict.hasOwnProperty === undefined || dict.hasOwnProperty(key)] for
    a mapping whose values are texts: a property [hasOwnProperty] of its
    own is a text, which cannot be called; the inherited method tells
    whether the mapping has the key itself. *)
Definition dict_hasOwnProperty (d : dict) (key : string) : outcome bool :=
  if existsb (fun kv => fst kv =? "hasOwnProperty") d then Throws TypeError
  else Returns (existsb (fun kv => fst kv =? key) d).

(** The loop [for (let key in dict)] of [namedValue]. *)
Fixpoint namedValue_loop (d keys : dict)
  : outcome (option (string * string)) :=
  match keys with
  | [] => Returns None
  | (key, v) :: rest =>
      if reserved key then namedValue_loop d rest
      else
        own <- dict_hasOwnProperty d key ;;
        if own then Returns (Some (key, v)) else namedValue_loop d rest
  end.

(** [namedValue(dict)]: the first entry whose key is not a marker;
    [None] is the [undefined] the function ends with when there is no
    such entry. *)
Definition namedValue (d : dict) : outcome (option (string * string)) :=
  namedValue_loop d d.

(** The loop of [createTable] over [options.columns]: reading the name of
    a column that [namedValue] did not find throws. *)
Fixpoint table_columnDefs (columns : list dict) (columnDefs : list string)
  : outcome (list string) :=
  match columns with
  | [] => Returns columnDefs
  | column :: rest =>
      nv <- namedValue column ;;
      match nv with
      | Some (name, v) =>
          table_columnDefs rest (push columnDefs ("`" ++ name ++ "` " ++ v))
      | None => Throws TypeError
      end
  end.

(** [SQL.createTable(options)], for the options [tableName], a text,
    [temp], taken as a Boolean, and [columns]. *)
Definition createTable (tableName : string) (temp : bool)
  (columns : list dict) : outcome SQL :=
  columnDefs <- table_columnDefs columns [] ;;
  Returns
    (append (new_SQL Absent [])
       (Text ("CREATE " ++ (if temp then "TEMP" else "") ++ " TABLE `"
              ++ tableName ++ "` ( " ++ String.concat "," columnDefs
              ++ " );")) []).

(** [SQL.dropTable(name)]. *)
Definition dropTable (name : string) : SQL :=
  append (new_SQL Absent []) (Text ("DROP TABLE `" ++ name ++ "`")) [].

(** A column of an index: its name, or a mapping of its name to its
    order. *)
Inductive index_column : Type :=
| ColumnName (name : string)
| ColumnOrder (d : dict).

(** The options of [createIndex]; an option that is not given is
    [None]. *)
Record index_options : Type := mkIndex {
  tableName : option string;
  columns : list index_column;
  unique : bool;
  indexName : option string
}.

(** A text option inside a template literal or a concatenation: an
    absent one reads [undefined]. *)
Definition option_text (o : option string) : string :=
  match o with
  | Some text => text
  | None => "undefined"
  end.

(** The loop of [createIndex] over [options.columns], on the state
    [(columnDefs, columnNames)]. *)
Fixpoint index_columnDefs (columns : list index_column)
  (st : list string * list string) : outcome (list string * list string) :=
  match columns with
  | [] => Returns st
  | column :: rest =>
      let '(columnDefs, columnNames) := st in
      match column with
      | ColumnName name =>
          index_columnDefs rest
            (push columnDefs ("`" ++ name ++ "` ASC"), push columnNames name)
      | ColumnOrder d =>
          nv <- namedValue d ;;
          match nv with
          | Some (name, v) =>
              index_columnDefs rest
                (push columnDefs ("`" ++ name ++ "` " ++ v),
                 push columnNames name)
          | None => Throws TypeError
          end
      end
  end.

(** [!indexName]: the option is absent or the empty text. *)
Definition no_text (o : option string) : bool :=
  match o with
  | Some text => text =? ""
  | None => true
  end.

(** [SQL.createIndex(options)]. *)
Definition createIndex (options : index_options) : outcome SQL :=
  ' (columnDefs, columnNames) <-
    index_columnDefs (columns options) ([], []) ;;
  let unique := if unique options then "UNIQUE " else "" in
  let indexName :=
    if no_text (indexName options) then
      option_text (tableName options) ++ "_"
      ++ String.concat "_" columnNames
    else option_text (indexName options) in
  Returns
    (append (new_SQL Absent [])
       (Text ("CREATE " ++ unique ++ "INDEX " ++ indexName ++ " ON "
              ++ option_text (tableName options) ++ " ( "
              ++ String.concat "," columnDefs ++ " );")) []).

(** ** The statements of the database helpers *)

(** The statement [Database.insert(table, values)] runs. *)
Definition Database_insert (table : string) (values : obj)
  : option (outcome SQL) :=
  values_ (SQL_insert (Text table) []) (ValuesMap values).

(** The statement [Database.insertOrReplace(table, values)] runs. *)
Definition Database_insertOrReplace (table : string) (values : obj)
  : option (outcome SQL) :=
  values_ (SQL_insertOrReplace (Text table) []) (ValuesMap values).

(** The statement [Database.insertOrIgnore(table, values)] runs. *)
Definition Database_insertOrIgnore (table : string) (values : obj)
  : option (outcome SQL) :=
  values_ (SQL_insertOrIgnore (Text table) []) (ValuesMap values).

(** The statement [Database.delete(table, condition)] runs; a condition
    that is not given is [undefined]. *)
Definition Database_delete (table : string) (condition : value)
  : outcome SQL :=
  where_ (SQL_delete (Text table) []) [condition].

(** The statement [Database.update(table, values, condition)] runs. *)
Definition Database_update (table : string) (values : obj)
  (condition : value) : option (outcome SQL) :=
  bind_open (set_ (SQL_update (Text table) []) (SetValues values None))
    (fun this => Some (where_ this [condition])).

(** The statement [Database.findOne(table, condition)] and
    [Database.findMany(table, condition)] run. *)
Definition Database_find (table : string) (condition : value)
  : outcome SQL :=
  where_ (from (SQL_select SelectNone) (Text table) []) [condition].

(** ** Vocabulary of the further statements *)

(** The builder has as many placeholders as parameters. *)
Definition aligned (this : SQL) : Prop :=
  count_placeholders (sql this) = List.length (params this).

(** The fragment brings as many placeholders as parameters; a text
    brings no parameter. *)
Definition aligned_fragment (f : fragment) : Prop :=
  match f with
  | Absent => True
  | Text text => count_placeholders text = 0
  | Builder text ps => count_placeholders text = List.length ps
  end.

(** The placeholders of a list of texts. *)
Definition total_placeholders (texts : list string) : nat :=
  list_sum (map count_placeholders texts).

(** Every builder inside the value has as many placeholders as
    parameters. *)
Fixpoint subqueries_aligned (v : value) : bool :=
  match v with
  | VSQL text ps => (count_placeholders text =? List.length ps)%nat
  | VArr elems => forallb subqueries_aligned elems
  | VObj props => forallb (fun kv => subqueries_aligned (snd kv)) props
  | _ => true
  end.

(** The comparison operators with the SQL operator each stands for, in
    the order in which [build_expression] tests them. *)
Definition comparisons : list (string * string) :=
  [("$ne", "<>"); ("$lt", "<"); ("$gt", ">"); ("$lte", "<=");
   ("$gte", ">="); ("$le", "<="); ("$ge", ">=")].

(** The columns [values] keeps: not a marker key, not a function, not
    [undefined]. *)
Definition inserted (kv : string * value) : bool :=
  negb (reserved (fst kv)) && negb (is_function (snd kv))
  && defined (snd kv).

(** The text of a fragment, and the parameters [append] takes from it
    and from the arguments [rest] that follow it. *)
Definition fragment_text (f : fragment) : string :=
  match f with
  | Absent => ""
  | Text text => text
  | Builder text _ => text
  end.

(** The text of the builder as a lead for what [append] adds: followed
    by a space when [append] keeps it, empty when [append] drops it. *)
Definition lead (this : SQL) : string :=
  if (1 <? String.length (sql this))%nat then sql this ++ " " else "".

(** A text followed by a fragment, after a space, when there is one. *)
Definition followed (text : string) (f : fragment) : string :=
  match f with
  | Absent => text
  | _ => text ++ " " ++ fragment_text f
  end.

(** The operator keys [build_expression] tests for a value before
    [$in]. *)
Definition before_in : list string :=
  (before_eq ++ ["$eq"; "$like"; "$glob"])%list.

(** Every operator key [build_expression] tests for a value. *)
Definition value_operators : list string :=
  (before_nin ++ ["$nin"; "$or"; "$and"; "$not"])%list.

(** The entries of a condition mapping that are columns. *)
Definition columns_of (props : obj) : obj :=
  filter (fun kv => negb (reserved (fst kv))) props.

(** The text of the equality of a column, as [build_expression] writes
    it for a value without operator. *)
Definition equality (kv : string * value) : string := fst kv ++ " = ?".

(** The value carries none of the operators [build_expression] looks
    for: it is neither [null] nor [undefined], and if it is a plain
    object, none of the operator keys is set and neither [$is] nor
    [$isnot] is [null]. *)
Definition operator_free (v : value) : bool :=
  match v with
  | VUndefined | VNull => false
  | VObj props =>
      forallb (fun operator => negb (carries props operator)) value_operators
      && negb (is_null (lookup "$is" props))
      && negb (is_null (lookup "$isnot" props))
  | _ => true
  end.

(** No key of the mapping holds a placeholder. *)
Definition plain_keys (props : obj) : bool :=
  forallb (fun kv => (count_placeholders (fst kv) =? 0)%nat) props.

(** The parameters [append] binds for a fragment and the arguments
    [rest] that follow it: those of a builder; for a text, the elements
    of the array that comes first, or all the arguments, or nothing when
    the first is [undefined]. *)
Definition appended (f : fragment) (rest : list value) : list value :=
  match f with
  | Absent => []
  | Builder _ ps => ps
  | Text _ =>
      match rest with
      | [] | VUndefined :: _ => []
      | VArr elems :: _ => elems
      | _ :: _ => rest
      end
  end.

(** A column name between backticks. *)
Definition quoted (kv : string * value) : string := "`" ++ fst kv ++ "`".

(** The entry of a column mapping that names the column: the first
    whose key is not a marker, in a mapping without a key
    [hasOwnProperty]. *)
Definition usable_entry (d : dict) : option (string * string) :=
  if existsb (fun kv => fst kv =? "hasOwnProperty") d then None
  else find (fun kv => negb (reserved (fst kv))) d.

(** The name and the order of a column of an index: a bare name is in
    ascending order; a mapping gives them by its usable entry, if it has
    one. *)
Definition index_entry (column : index_column) : option (string * string) :=
  match column with
  | ColumnName name => Some (name, "ASC")
  | ColumnOrder d => usable_entry d
  end.

(** A name that can stand for the mapping of the name to its order: not
    a marker, and not [hasOwnProperty]. *)
Definition plain_name (column : index_column) : bool :=
  match column with
  | ColumnName name => negb (reserved name) && negb (name =? "hasOwnProperty")
  | ColumnOrder _ => true
  end.

(** The column of an index with its order spelled out. *)
Definition ascending (column : index_column) : index_column :=
  match column with
  | ColumnName name => ColumnOrder [(name, "ASC")]
  | ColumnOrder d => ColumnOrder d
  end.

(** The definition of a column in a statement: its name between
    backticks, then its type or its order. *)
Definition column_def (entry : string * string) : string :=
  "`" ++ fst entry ++ "` " ++ snd entry.

(** * Properties *)

(** ** Strings *)

Lemma append_assoc (a b c : string) : (a ++ b) ++ c = a ++ b ++ c.
Proof. induction a as [|x a IH]; cbn; [reflexivity | now rewrite IH]. Qed.

Lemma append_empty_r (a : string) : a ++ "" = a.
Proof. induction a as [|x a IH]; cbn; [reflexivity | now rewrite IH]. Qed.

(** ** The examples of the source's documentation *)

Example append_builder_example :
  append (new_SQL (Text "SELECT * FROM Users") [])
    (as_fragment (new_SQL (Text "WHERE Age > ?") [VNum 21])) []
  = mkSQL "SELECT * FROM Users WHERE Age > ?" [VNum 21] false None.
Proof. reflexivity. Qed.

Example append_array_example :
  append empty (Text "WHERE x=? AND y=?") [VArr [VNum 10; VNum 20]]
  = append empty (Text "WHERE x=? AND y=?") [VNum 10; VNum 20].
Proof. reflexivity. Qed.

Example where_map_example :
  where_ empty [VObj [("x", VNum 10); ("y", VNum 20)]]
  = Returns (mkSQL "WHERE (x = ? AND y = ?)" [VNum 10; VNum 20] true None).
Proof. reflexivity. Qed.

Example where_text_example :
  where_ empty [VStr "age > ? AND status = ?"; VNum 18; VStr "active"]
  = Returns (mkSQL "WHERE age > ? AND status = ?" [VNum 18; VStr "active"]
               true None).
Proof. reflexivity. Qed.

Example where_or_example :
  where_ empty
    [VObj [("age", VObj [("$or", VArr [VObj [("$lt", VNum 18)];
                                        VObj [("$gt", VNum 65)]])])]]
  = Returns (mkSQL "WHERE ((`age` < ? OR `age` > ?))" [VNum 18; VNum 65]
               true None).
Proof. reflexivity. Qed.

Example where_in_subquery_example :
  where_ empty
    [VObj [("userId", VObj [("$in", VSQL "SELECT id FROM active" [])])]]
  = Returns (mkSQL "WHERE (`userId` IN (SELECT id FROM active))" []
               true None).
Proof. reflexivity. Qed.

Example where_not_example :
  where_ empty [VObj [("age", VObj [("$not", VObj [("$lt", VNum 18)])])]]
  = Returns (mkSQL "WHERE (NOT (`age` < ?))" [VNum 18] true None).
Proof. reflexivity. Qed.

Example set_example :
  set_ (new_SQL (Text "UPDATE Users") [])
    (SetValues [("firstName", VStr "Joe"); ("lastName", VStr "SixPack")]
       None)
  = Some
      (Returns
         (mkSQL "UPDATE Users SET `firstName` = ?,`lastName` = ?"
            [VStr "Joe"; VStr "SixPack"] false
            (Some [("firstName", VStr "Joe");
                   ("lastName", VStr "SixPack")]))).
Proof. reflexivity. Qed.

(** ** [append] *)

Lemma append_text_sql_long (this : SQL) (text : string) (rest : list value) :
  1 < String.length (sql this) ->
  sql (append this (Text text) rest) = sql this ++ " " ++ text.
Proof.
  intros Hlen. unfold append, append_text. simpl.
  apply Nat.ltb_lt in Hlen. now rewrite Hlen.
Qed.

Lemma append_text_sql_short (this : SQL) (text : string) (rest : list value) :
  String.length (sql this) <= 1 ->
  sql (append this (Text text) rest) = text.
Proof.
  intros Hlen. unfold append, append_text. simpl.
  apply Nat.ltb_ge in Hlen. now rewrite Hlen.
Qed.

Lemma append_params_array (this : SQL) (text : string)
  (elems rest : list value) :
  params (append this (Text text) (VArr elems :: rest))
  = (params this ++ elems)%list.
Proof. reflexivity. Qed.

Lemma append_params_none (this : SQL) (text : string) :
  params (append this (Text text) []) = params this.
Proof. reflexivity. Qed.

Lemma append_params_positional (this : SQL) (text : string) (p : value)
  (rest : list value) :
  defined p = true -> (forall elems, p <> VArr elems) ->
  params (append this (Text text) (p :: rest))
  = (params this ++ p :: rest)%list.
Proof.
  intros Hdef Harr. destruct p; try reflexivity; try discriminate.
  now destruct (Harr elems).
Qed.

Lemma append_builder (this : SQL) (text : string) (ps rest : list value) :
  append this (Builder text ps) rest = append this (Text text) [VArr ps].
Proof. reflexivity. Qed.

Lemma append_clears_hasWhere (this : SQL) (sql : fragment) (rest : list value) :
  hasWhere (append this sql rest) = false.
Proof. now destruct sql. Qed.

(** C1. A builder whose text is a single character loses that text on the
    next [append]: the fragment replaces it instead of following it after
    a space, because [append] takes a text of length at most one for the
    empty text.  So does [parens] on a new builder, whose opening
    parenthesis is such a text. *)
Theorem append_replaces_single_character (c : ascii) (ps : list value)
  (flag : bool) (vs : option obj) (B : string) (rest : list value) :
  let this := mkSQL (String c "") ps flag vs in
  sql (append this (Text B) rest) = B
  /\ sql (append this (Text B) rest) <> sql this ++ " " ++ B
  /\ sql (append (mkSQL "a" [] false None) (Text "b") []) = "b"
  /\ sql (parens empty (Text "x") []) = ")".
Proof.
  cbn. repeat split; try reflexivity.
  intros H. apply (f_equal String.length) in H. cbn in H. lia.
Qed.

(** ** The WHERE family *)

Lemma buildCondition_builder (text : string) (ps rest : list value) :
  buildCondition (VSQL text ps :: rest) = Returns (Builder text ps).
Proof. reflexivity. Qed.

Lemma buildCondition_text (text : string) (rest : list value) :
  buildCondition (VStr text :: rest)
  = Returns (as_fragment (new_SQL (Text text) rest)).
Proof. reflexivity. Qed.

Lemma andWhere_sets_hasWhere (this : SQL) (arguments : list value) :
  match andWhere this arguments with
  | Returns this' => hasWhere this' = true
  | _ => True
  end.
Proof.
  unfold andWhere.
  destruct (if hasWhere this then and_ this arguments
            else where_ this arguments); now cbn.
Qed.

(** C10. [where(null)] does nothing, as [where()] and [where(undefined)]
    do: the builder comes back as it was, text, parameters and the
    [hasWhere] flag included, and no WHERE is emitted. *)
Theorem where_null_is_noop (this : SQL) :
  where_ this [VNull] = Returns this
  /\ where_ this [VNull] = where_ this []
  /\ where_ this [VNull] = where_ this [VUndefined].
Proof. repeat split. Qed.

(** C6. On a new builder, [andWhere({a:1})] acts as [where] and the
    following [andWhere({b:2})] as [and]: the text holds WHERE once, at
    its start, and AND once, after it, the parameters are 1 and 2, and
    the flag [hasWhere] is set after either call, as it is after every
    call of [andWhere] that returns. *)
Theorem andWhere_twice :
  let a1 := [VObj [("a", VNum 1)]] in
  let b2 := [VObj [("b", VNum 2)]] in
  exists first second : SQL,
    andWhere empty a1 = Returns first
    /\ where_ empty a1 = Returns first
    /\ hasWhere first = true
    /\ andWhere first b2 = Returns second
    /\ bind (and_ first b2) (fun r => Returns (set_hasWhere r))
       = Returns second
    /\ sql second = "WHERE (a = ?) AND (b = ?)"
    /\ params second = [VNum 1; VNum 2]
    /\ occurrences "WHERE" (sql second) 0 = [0]
    /\ occurrences "AND" (sql second) 0 = [14]
    /\ hasWhere second = true
    /\ (forall this arguments,
          match andWhere this arguments with
          | Returns this' => hasWhere this' = true
          | _ => True
          end).
Proof.
  cbv zeta.
  exists (mkSQL "WHERE (a = ?)" [VNum 1] true None).
  exists (mkSQL "WHERE (a = ?) AND (b = ?)" [VNum 1; VNum 2] true None).
  repeat split; try reflexivity.
  apply andWhere_sets_hasWhere.
Qed.

(** ** The condition compiler *)

Lemma for_each_all_skipped {A S : Type} (body : S -> A -> outcome S)
  (xs : list A) (st : S) :
  (forall x st', In x xs -> body st' x = Returns st') ->
  for_each body xs st = Returns st.
Proof.
  induction xs as [|x xs IH]; intros Hskip; cbn; [reflexivity|].
  rewrite Hskip by now left. cbn. apply IH.
  intros y st' Hy. apply Hskip. now right.
Qed.

(** C7. A condition mapping without a column, be it empty or made of
    marker keys only, compiles to the text TRUE, which carries no
    parameter: appending it leaves the parameters as they are. *)
Theorem buildCondition_no_column (props : obj) (rest : list value) :
  forallb (fun kv => reserved (fst kv)) props = true ->
  buildCondition (VObj props :: rest) = Returns (Text "TRUE")
  /\ forall this : SQL,
       params (append this (Text "TRUE") []) = params this.
Proof.
  intros Hreserved. split; [|reflexivity].
  unfold buildCondition. cbn [nth entries bind].
  rewrite for_each_all_skipped; [reflexivity|].
  intros [key v] st' Hin.
  rewrite forallb_forall in Hreserved.
  specialize (Hreserved _ Hin). cbn in Hreserved.
  now rewrite Hreserved.
Qed.

Lemma buildCondition_no_column_witness :
  buildCondition [VObj []] = Returns (Text "TRUE")
  /\ buildCondition [VObj [("$limit", VNum 1); (".tag", VStr "x")]]
     = Returns (Text "TRUE").
Proof.
  split.
  - apply (buildCondition_no_column [] []). reflexivity.
  - apply (buildCondition_no_column
             [("$limit", VNum 1); (".tag", VStr "x")] []).
    reflexivity.
Defined.

Lemma not_carried (props : obj) (operators : list string) (operator : string) :
  forallb (fun operator => negb (carries props operator)) operators = true ->
  In operator operators ->
  defined (lookup operator props) = false.
Proof.
  intros Hall Hin. rewrite forallb_forall in Hall.
  specialize (Hall _ Hin). unfold carries in Hall.
  now destruct (defined (lookup operator props)).
Qed.

Lemma defined_false (v : value) : defined v = false -> v = VUndefined.
Proof. now destruct v. Qed.

(** C2. When the value object of a column carries [$eq] and none of the
    operators tested before it, the column compiles to [`key` = ?], and
    the parameter bound is the [$ge] field of the object, which is
    [undefined], not the operand of [$eq]. *)
Theorem eq_binds_ge (fuel : nat) (key : string) (props : obj) (x : value)
  (sql : list string) (params : list value) :
  lookup "$eq" props = x ->
  defined x = true ->
  forallb (fun operator => negb (carries props operator)) before_eq = true ->
  build_expression (S fuel) key (VObj props) (sql, params)
  = Returns (push sql ("`" ++ key ++ "` = ?"),
             push params (lookup "$ge" props))
  /\ lookup "$ge" props = VUndefined
  /\ lookup "$ge" props <> x
  /\ (reserved key = false ->
      buildCondition [VObj [(key, VObj props)]]
      = Returns (Builder ("(`" ++ key ++ "` = ?)") [VUndefined])).
Proof.
  intros Heq Hdef Hnone.
  assert (Hop : forall operator, In operator before_eq ->
                                 defined (lookup operator props) = false)
    by (intros; now apply not_carried with before_eq).
  assert (Hexpr : forall fuel sql params,
             build_expression (S fuel) key (VObj props) (sql, params)
             = Returns (push sql ("`" ++ key ++ "` = ?"),
                        push params (lookup "$ge" props))).
  { intros fuel' sql' params'. cbn [build_expression is_null get bind].
    repeat match goal with
           | |- context [defined (lookup ?operator props)] =>
               rewrite (Hop operator) by (cbn; tauto)
           end.
    now rewrite Heq, Hdef. }
  assert (Hge : lookup "$ge" props = VUndefined)
    by (apply defined_false, Hop; cbn; tauto).
  repeat split.
  - apply Hexpr.
  - exact Hge.
  - rewrite Hge. intros <-. discriminate.
  - intros Hkey. unfold buildCondition.
    cbn [nth entries bind for_each]. rewrite Hkey, Hexpr, Hge.
    cbn. now rewrite append_assoc.
Qed.

Lemma eq_binds_ge_witness :
  build_expression 1 "age" (VObj [("$eq", VNum 30)]) ([], [])
  = Returns (["`age` = ?"], [VUndefined])
  /\ buildCondition [VObj [("age", VObj [("$eq", VNum 30)])]]
     = Returns (Builder "(`age` = ?)" [VUndefined]).
Proof.
  destruct (eq_binds_ge 0 "age" [("$eq", VNum 30)] (VNum 30) [] []
              eq_refl eq_refl eq_refl) as (Hexpr & _ & _ & Hcond).
  split; [exact Hexpr | exact (Hcond eq_refl)].
Defined.

(** C3. A value object that reaches the test of [$nin] makes
    [build_expression] throw, whatever [$nin] holds: the length and the
    elements are read from the field [$in], which is [undefined] there.
    So [buildCondition({id: {$nin: [1, 2, 3]}})] throws a TypeError; no
    NOT IN text is produced and no parameter is bound. *)
Theorem nin_throws (fuel : nat) (key : string) (props : obj)
  (st : list string * list value) :
  forallb (fun operator => negb (carries props operator)) before_nin = true ->
  is_null (lookup "$is" props) = false ->
  is_null (lookup "$isnot" props) = false ->
  carries props "$nin" = true ->
  build_expression (S fuel) key (VObj props) st = Throws TypeError
  /\ (reserved key = false ->
      forall more rest,
        buildCondition (VObj ((key, VObj props) :: more) :: rest)
        = Throws TypeError).
Proof.
  intros Hnone His Hisnot Hnin.
  assert (Hop : forall operator, In operator before_nin ->
                                 defined (lookup operator props) = false)
    by (intros; now apply not_carried with before_nin).
  assert (Hexpr : forall fuel st,
             build_expression (S fuel) key (VObj props) st = Throws TypeError).
  { intros fuel' [sql params]. cbn [build_expression is_null get bind].
    assert (Hin : lookup "$in" props = VUndefined)
      by (apply defined_false, Hop; cbn; tauto).
    repeat match goal with
           | |- context [defined (lookup ?operator props)] =>
               rewrite (Hop operator) by (cbn; tauto)
           end.
    unfold carries in Hnin. now rewrite His, Hisnot, Hnin, Hin. }
  split; [apply Hexpr|].
  intros Hkey more rest. unfold buildCondition.
  cbn [nth entries bind for_each]. now rewrite Hkey, Hexpr.
Qed.

Lemma nin_throws_witness :
  build_expression 1 "id" (VObj [("$nin", VArr [VNum 1; VNum 2; VNum 3])])
    ([], [])
  = Throws TypeError
  /\ buildCondition
       [VObj [("id", VObj [("$nin", VArr [VNum 1; VNum 2; VNum 3])])]]
     = Throws TypeError.
Proof.
  destruct (nin_throws 0 "id" [("$nin", VArr [VNum 1; VNum 2; VNum 3])]
              ([], []) eq_refl eq_refl eq_refl eq_refl) as [Hexpr Hcond].
  split; [exact Hexpr | exact (Hcond eq_refl [] [])].
Defined.

Lemma scalar_get (v : value) (name : string) :
  scalar v = true -> get v name = Returns VUndefined.
Proof. now destruct v. Qed.

(** C4, as the code has it. For a column [key] and a plain scalar [v], a
    Boolean, a Number, a BigInt or a string, the column compiles to
    [key = ?], the name as it is and not between backticks, with [v]
    bound as the parameter: [buildCondition({key: v})] is the builder of
    text [(key = ?)] and parameters [[v]]. *)
Theorem scalar_equality_unquoted (fuel : nat) (key : string) (v : value)
  (sql : list string) (params : list value) :
  scalar v = true ->
  build_expression (S fuel) key v (sql, params)
  = Returns (push sql (key ++ " = ?"), push params v)
  /\ (reserved key = false ->
      buildCondition [VObj [(key, v)]]
      = Returns (Builder ("(" ++ key ++ " = ?)") [v])).
Proof.
  intros Hscalar.
  assert (Hexpr : forall fuel sql params,
             build_expression (S fuel) key v (sql, params)
             = Returns (push sql (key ++ " = ?"), push params v)).
  { intros fuel' sql' params'. cbn [build_expression].
    rewrite !scalar_get by assumption. now destruct v. }
  split; [apply Hexpr|].
  intros Hkey. unfold buildCondition.
  cbn [nth entries bind for_each]. rewrite Hkey, Hexpr.
  cbn. now rewrite append_assoc.
Qed.

Lemma scalar_equality_unquoted_witness :
  build_expression 1 "age" (VNum 30) ([], [])
  = Returns (["age = ?"], [VNum 30])
  /\ buildCondition [VObj [("age", VNum 30)]]
     = Returns (Builder "(age = ?)" [VNum 30]).
Proof.
  destruct (scalar_equality_unquoted 0 "age" (VNum 30) [] [] eq_refl)
    as [Hexpr Hcond].
  split; [exact Hexpr | exact (Hcond eq_refl)].
Defined.

(** C4, as it is stated, fails: the column of a plain scalar is not put
    between backticks. *)
Lemma scalar_equality_quoted_fails :
  build_expression 1 "a" (VNum 1) ([], []) = Returns (["a = ?"], [VNum 1])
  /\ build_expression 1 "a" (VNum 1) ([], [])
     <> Returns (["`a` = ?"], [VNum 1])
  /\ buildCondition [VObj [("a", VNum 1)]]
     = Returns (Builder "(a = ?)" [VNum 1])
  /\ buildCondition [VObj [("a", VNum 1)]]
     <> Returns (Builder "(`a` = ?)" [VNum 1]).
Proof. repeat split; try reflexivity; discriminate. Qed.

(** ** Termination of the condition compiler *)

Lemma bind_fuel {A B : Type} (m : outcome A) (k : A -> outcome B) :
  m <> OutOfFuel ->
  (forall a, m = Returns a -> k a <> OutOfFuel) ->
  bind m k <> OutOfFuel.
Proof.
  intros Hm Hk. destruct m as [a| |]; cbn.
  - now apply Hk.
  - discriminate.
  - contradiction.
Qed.

Lemma for_each_fuel {A S : Type} (body : S -> A -> outcome S) (xs : list A) :
  (forall x st, In x xs -> body st x <> OutOfFuel) ->
  forall st, for_each body xs st <> OutOfFuel.
Proof.
  induction xs as [|x xs IH]; intros Hbody st; cbn; [discriminate|].
  apply bind_fuel.
  - apply Hbody. now left.
  - intros st' _. apply IH. intros y st'' Hy. apply Hbody. now right.
Qed.

Lemma list_max_In (f : value -> nat) (x : value) (xs : list value) :
  In x xs -> f x <= list_max (map f xs).
Proof.
  induction xs as [|y xs IH]; intros Hin; [contradiction|].
  cbn [map list_max fold_right]. destruct Hin as [->|Hin].
  - apply Nat.le_max_l.
  - etransitivity; [now apply IH | apply Nat.le_max_r].
Qed.

Lemma depth_lookup (name : string) (props : obj) :
  depth (lookup name props)
  <= list_max (map (fun kv => depth (snd kv)) props).
Proof.
  induction props as [|[k v] props IH]; cbn [lookup]; [cbn; lia|].
  cbn [map list_max fold_right snd]. destruct (k =? name).
  - apply Nat.le_max_l.
  - etransitivity; [exact IH | apply Nat.le_max_r].
Qed.

Lemma depth_chars (s : string) (e : value) : In e (chars s) -> depth e = 0.
Proof.
  induction s as [|c s IH]; cbn; [contradiction|].
  intros [<-|Hin]; [reflexivity | now apply IH].
Qed.

Lemma depth_iterate (v e : value) (elems : list value) :
  iterate v = Returns elems -> In e elems -> depth e <= depth v.
Proof.
  destruct v; cbn; intros Hit Hin; inversion Hit; subst.
  - rewrite (depth_chars _ _ Hin). lia.
  - apply in_map_iff in Hin as (b & <- & _). cbn. lia.
  - cbn. apply Nat.le_le_succ_r. now apply list_max_In.
Qed.

Lemma iterate_fuel (v : value) : iterate v <> OutOfFuel.
Proof. destruct v; discriminate. Qed.

Lemma get_fuel (v : value) (name : string) : get v name <> OutOfFuel.
Proof. destruct v; discriminate. Qed.

Lemma array_of_length_fuel (v : value) : array_of_length v <> OutOfFuel.
Proof.
  destruct v; cbn; try discriminate.
  repeat match goal with
         | |- match ?x with _ => _ end <> OutOfFuel => destruct x
         end; discriminate.
Qed.

Ltac cascade :=
  repeat match goal with
         | |- Returns _ <> OutOfFuel => discriminate
         | |- Throws _ <> OutOfFuel => discriminate
         | |- (if ?c then _ else _) <> OutOfFuel => destruct c eqn:?
         | |- bind (iterate _) _ <> OutOfFuel =>
             apply bind_fuel; [apply iterate_fuel | intros ? ?]
         | |- bind (get _ _) _ <> OutOfFuel =>
             apply bind_fuel; [apply get_fuel | intros ? ?]
         | |- bind (array_of_length _) _ <> OutOfFuel =>
             apply bind_fuel; [apply array_of_length_fuel | intros ? ?]
         | |- match ?x with _ => _ end <> OutOfFuel => destruct x eqn:?
         end.

(** [build_expression] does not run out of fuel once the fuel exceeds the
    depth of the value; [buildCondition] gives it as much. *)
Lemma build_expression_terminates (fuel : nat) :
  forall (key : string) (v : value) (st : list string * list value),
    depth v < fuel -> build_expression fuel key v st <> OutOfFuel.
Proof.
  induction fuel as [|fuel IH]; intros key v [sql params] Hdepth; [lia|].
  destruct v; try (cbn; discriminate).
  cbn [build_expression is_null get bind]. cbn [depth] in Hdepth.
  cascade.
  all: apply bind_fuel; [|intros [sub_sql params'] _; discriminate].
  all: try (apply for_each_fuel; intros sub st Hsub).
  all: apply IH.
  all: match goal with
       | Hit : iterate (lookup ?name ?props) = Returns ?subs,
         Hsub : In _ ?subs |- _ =>
           pose proof (depth_iterate _ _ _ Hit Hsub);
           pose proof (depth_lookup name props); lia
       | |- depth (lookup ?name ?props) < _ =>
           pose proof (depth_lookup name props); lia
       end.
Qed.

Lemma buildCondition_terminates (arguments : list value) :
  buildCondition arguments <> OutOfFuel.
Proof.
  unfold buildCondition.
  destruct (nth 0 arguments VUndefined); try discriminate; cbn [entries bind].
  all: try (apply bind_fuel; [|intros [sql params] _];
            [|destruct (Datatypes.length sql =? 0)%nat; discriminate]).
  all: apply for_each_fuel; intros [key value] st _.
  all: destruct (reserved key); [discriminate|].
  all: apply build_expression_terminates; lia.
Qed.

(** ** UPDATE ... SET *)

Lemma has_own_in (kv : string * value) (values : obj) :
  In kv values -> has_own (fst kv) values = true.
Proof.
  intros Hin. unfold has_own. apply existsb_exists.
  exists kv. split; [assumption|apply String.eqb_refl].
Qed.

(** A mapping that does not hide [hasOwnProperty] passes the test of
    [set] and [values] for each of its keys. *)
Lemma hasOwnProperty_ordinary (values : obj) (key : string) :
  ordinary values = true -> has_own key values = true ->
  hasOwnProperty values key = Some (Returns true).
Proof.
  unfold ordinary, hasOwnProperty. intros Hordinary Hown.
  destruct (lookup "hasOwnProperty" values); try discriminate.
  rewrite Hown. now destruct (has_own "hasOwnProperty" values).
Qed.

(** A property [hasOwnProperty] that is neither a function nor
    [undefined] makes the test throw. *)
Lemma hasOwnProperty_throws (values : obj) (key : string) :
  defined (lookup "hasOwnProperty" values) = true ->
  is_function (lookup "hasOwnProperty" values) = false ->
  hasOwnProperty values key = Some (Throws TypeError).
Proof.
  unfold hasOwnProperty. intros Hdefined Hfunction.
  assert (Hown : has_own "hasOwnProperty" values = true).
  { clear Hfunction. induction values as [|[k v] values IH];
      [discriminate|].
    cbn in *. destruct (k =? "hasOwnProperty"); [reflexivity|].
    now apply IH. }
  rewrite Hown. now destruct (lookup "hasOwnProperty" values).
Qed.

Lemma set_step_falsy (values original : obj) (kv : string * value)
  (st : obj * list string * list value) :
  original_falsy original kv = true ->
  set_step values (Some original) st kv = set_step values None st kv.
Proof.
  destruct kv as [key v], st as [[recorded setExpressions] paramValues].
  unfold original_falsy, retained, set_step, unchanged. cbn [fst snd].
  intros Hfalsy. destruct (reserved key); [reflexivity|].
  destruct (hasOwnProperty values key) as [[[|]| |]|]; try reflexivity.
  destruct (is_function v); [reflexivity|]. cbn [negb andb orb] in *.
  apply negb_true_iff in Hfalsy. now rewrite Hfalsy.
Qed.

Lemma set_loop_falsy (values original keys : obj) :
  forallb (original_falsy original) keys = true ->
  forall st,
    set_loop values (Some original) keys st = set_loop values None keys st.
Proof.
  induction keys as [|kv keys IH]; intros Hfalsy st; [reflexivity|].
  cbn [forallb] in Hfalsy. apply andb_true_iff in Hfalsy as [Hkv Hkeys].
  cbn [set_loop]. rewrite (set_step_falsy _ _ _ _ Hkv).
  destruct (set_step values None st kv) as [[st'| |]|]; try reflexivity.
  cbn [bind_open]. now apply IH.
Qed.

(** Without original values every retained column is assigned. *)
Lemma set_loop_all (values keys : obj) :
  ordinary values = true ->
  (forall kv, In kv keys -> In kv values) ->
  forall recorded setExpressions paramValues,
    set_loop values None keys (recorded, setExpressions, paramValues)
    = Some
        (Returns
           (recorded_from (filter retained keys) recorded,
            (setExpressions
             ++ map (fun kv => assignment (fst kv))
                  (filter retained keys))%list,
            (paramValues ++ map snd (filter retained keys))%list)).
Proof.
  intros Hordinary. induction keys as [|[key v] keys IH];
    intros Hkeys recorded setExpressions paramValues.
  - cbn. now rewrite !app_nil_r.
  - assert (Hown : hasOwnProperty values key = Some (Returns true)).
    { apply hasOwnProperty_ordinary; [assumption|].
      apply (has_own_in (key, v)), Hkeys. now left. }
    assert (Hrest : forall kv, In kv keys -> In kv values)
      by (intros kv Hin; apply Hkeys; now right).
    cbn [set_loop filter]. unfold set_step, retained, unchanged.
    cbn [fst snd]. destruct (reserved key); cbn [negb andb bind_open];
      [now apply IH|].
    rewrite Hown. cbn [bind_open andb].
    destruct (is_function v); cbn [negb bind_open]; rewrite IH by assumption;
      [reflexivity|].
    unfold push, recorded_from.
    cbn [fold_left map fst snd]. now rewrite <- !app_assoc.
Qed.

Lemma set_all (this : SQL) (mapping : obj) :
  ordinary mapping = true ->
  set_ this (SetValues mapping None)
  = Some (Returns (assigned this (filter retained mapping))).
Proof.
  intros Hordinary. unfold set_.
  rewrite set_loop_all by auto. reflexivity.
Qed.

Lemma set_step_decided (values original : obj) (kv : string * value)
  (recorded : obj) (setExpressions : list string) (paramValues : list value) :
  hasOwnProperty values (fst kv) = Some (Returns true) ->
  decided original kv = true ->
  exists recorded',
    set_step values (Some original) (recorded, setExpressions, paramValues)
      kv
    = Some
        (Returns
           (recorded',
            (setExpressions
             ++ map (fun kv => assignment (fst kv))
                  (filter
                     (fun kv => retained kv && negb (elided original kv))
                     [kv]))%list,
            (paramValues
             ++ map snd
                  (filter
                     (fun kv => retained kv && negb (elided original kv))
                     [kv]))%list)).
Proof.
  destruct kv as [key v]. unfold decided, retained, elided, set_step, unchanged.
  cbn [fst snd filter]. intros Hown Hdecided.
  destruct (reserved key); cbn [negb andb].
  { exists recorded. now rewrite !app_nil_r. }
  rewrite Hown. cbn [bind_open andb].
  destruct (is_function v); cbn [negb andb orb] in *.
  { exists recorded. now rewrite !app_nil_r. }
  destruct (truthy (property original key)); cbn [negb andb orb] in *.
  - destruct (loose_eq (property original key) v) as [[|]|];
      try discriminate; cbn [negb map fst snd]; eexists.
    + now rewrite !app_nil_r.
    + reflexivity.
  - eexists. reflexivity.
Qed.

Lemma set_loop_decided (values original keys : obj) :
  ordinary values = true ->
  (forall kv, In kv keys -> In kv values) ->
  forallb (decided original) keys = true ->
  forall recorded setExpressions paramValues,
  exists recorded',
    set_loop values (Some original) keys
      (recorded, setExpressions, paramValues)
    = Some
        (Returns
           (recorded',
            (setExpressions
             ++ map (fun kv => assignment (fst kv))
                  (filter
                     (fun kv => retained kv && negb (elided original kv))
                     keys))%list,
            (paramValues
             ++ map snd
                  (filter
                     (fun kv => retained kv && negb (elided original kv))
                     keys))%list)).
Proof.
  intros Hordinary.
  induction keys as [|kv keys IH]; intros Hkeys Hdecided recorded exprs ps.
  - exists recorded. cbn. now rewrite !app_nil_r.
  - cbn [forallb] in Hdecided. apply andb_true_iff in Hdecided as [Hkv Hrest].
    assert (Hown : hasOwnProperty values (fst kv) = Some (Returns true)).
    { apply hasOwnProperty_ordinary; [assumption|].
      apply has_own_in, Hkeys. now left. }
    destruct (set_step_decided values original kv recorded exprs ps Hown Hkv)
      as [recorded1 Hstep].
    cbn [set_loop]. rewrite Hstep. cbn [bind_open].
    destruct (IH (fun kv Hin => Hkeys kv (or_intror Hin)) Hrest recorded1
                (exprs ++ map (fun kv => assignment (fst kv))
                   (filter (fun kv => retained kv && negb (elided original kv))
                      [kv]))%list
                (ps ++ map snd
                   (filter (fun kv => retained kv && negb (elided original kv))
                      [kv]))%list)
      as [recorded2 Hloop].
    exists recorded2. rewrite Hloop.
    change (kv :: keys) with ([kv] ++ keys)%list.
    now rewrite !filter_app, !map_app, !app_assoc.
Qed.

(** The embedding decides the comparison of two primitives. *)
Lemma loose_eq_primitive (x y : value) :
  primitive x = true -> primitive y = true ->
  exists b, loose_eq x y = Some b.
Proof.
  destruct x, y; try discriminate; intros _ _; cbn; now eexists.
Qed.

(** So it decides the comparisons of [set] when the original value read
    for each retained column and its new value are primitives. *)
Lemma comparable_primitives (values original : obj) :
  forallb (fun kv => negb (retained kv)
                     || primitive (property original (fst kv))
                        && primitive (snd kv)) values = true ->
  comparable (Some original) values = true.
Proof.
  cbn [comparable]. intros Hprimitive. apply forallb_forall.
  intros kv Hin. apply (proj1 (forallb_forall _ _) Hprimitive) in Hin.
  unfold decided. destruct (retained kv); cbn [negb orb] in *; [|reflexivity].
  apply andb_true_iff in Hin as [Hx Hy].
  destruct (loose_eq_primitive _ _ Hx Hy) as [b ->]. apply orb_true_r.
Qed.

(** What [set] does with original values, where the embedding decides
    the comparisons: it leaves out the retained columns whose original
    value is truthy and loosely equal to the new value, and those
    only. *)
Lemma set_elides (this : SQL) (values original : obj) :
  ordinary values = true ->
  forallb (decided original) values = true ->
  let kept :=
    filter (fun kv => retained kv && negb (elided original kv)) values in
  exists result,
    set_ this (SetValues values (Some original)) = Some (Returns result)
    /\ sql result
       = sql (append (append this (Text "SET") [])
                (Text (String.concat ","
                         (map (fun kv => assignment (fst kv)) kept))) [])
    /\ params result = (params this ++ map snd kept)%list.
Proof.
  intros Hordinary Hdecided kept. unfold set_. cbv beta iota zeta.
  destruct (set_loop_decided values original values Hordinary
              (fun kv Hin => Hin) Hdecided [] [] [])
    as [recorded Hloop].
  unfold obj in *.
  rewrite Hloop. eexists. split; [reflexivity|]. split; reflexivity.
Qed.

(** C5. [set(values, originalValues)] does not leave out every column
    whose original value is loosely equal to the new one: it looks at
    the original value first and compares only when that is truthy.
    When the original value of every retained column is falsy (0, the
    empty string, [false], [null], [undefined] or not there), the call
    does what the call without original values does and assigns every
    retained column, the unchanged ones included: [set({a: 0}, {a: 0})]
    emits the column [a] and binds 0.  With a truthy unchanged value,
    as in [set({a: 1, b: 2}, {a: 1, b: 3})], the column is left out. *)
Theorem set_keeps_falsy_unchanged (this : SQL) (values original : obj) :
  forallb (original_falsy original) values = true ->
  set_ this (SetValues values (Some original))
  = set_ this (SetValues values None)
  /\ (ordinary values = true ->
      set_ this (SetValues values (Some original))
      = Some (Returns (assigned this (filter retained values))))
  /\ loose_eq (property [("a", VNum 0)] "a") (VNum 0) = Some true
  /\ set_ empty (SetValues [("a", VNum 0)] (Some [("a", VNum 0)]))
     = Some (Returns
               (mkSQL "SET `a` = ?" [VNum 0] false (Some [("a", VNum 0)])))
  /\ set_ empty (SetValues [("a", VNum 1); ("b", VNum 2)]
                   (Some [("a", VNum 1); ("b", VNum 3)]))
     = Some (Returns
               (mkSQL "SET `b` = ?" [VNum 2] false
                  (Some [("a", VNum 1); ("b", VNum 2)]))).
Proof.
  intros Hfalsy.
  assert (Hsame : set_ this (SetValues values (Some original))
                  = set_ this (SetValues values None)).
  { unfold set_. now rewrite set_loop_falsy. }
  split; [exact Hsame|]. split; [|repeat split; reflexivity].
  intros Hordinary. rewrite Hsame. now apply set_all.
Qed.

Lemma set_keeps_falsy_unchanged_witness :
  set_ (SQL_update (Text "t") [])
    (SetValues [("a", VNum 0); ("b", VStr ""); ("c", VNull)]
       (Some [("a", VNum 0); ("b", VStr ""); ("c", VNull)]))
  = Some (Returns
            (mkSQL "UPDATE t SET `a` = ?,`b` = ?,`c` = ?"
               [VNum 0; VStr ""; VNull] false
               (Some [("a", VNum 0); ("b", VStr ""); ("c", VNull)]))).
Proof.
  exact (proj1 (proj2 (set_keeps_falsy_unchanged (SQL_update (Text "t") [])
                         [("a", VNum 0); ("b", VStr ""); ("c", VNull)]
                         [("a", VNum 0); ("b", VStr ""); ("c", VNull)]
                         eq_refl))
           eq_refl).
Defined.

(** ** Debug rendering *)

Lemma split_at_cons (sep : ascii) (text : string) :
  exists piece pieces, split_at sep text = piece :: pieces.
Proof.
  destruct text as [|c rest]; cbn; [now eexists; eexists|].
  destruct (c =? sep)%char; [now eexists; eexists|].
  destruct (split_at sep rest); now eexists; eexists.
Qed.

Lemma concat_cons_char (sep : string) (c : ascii) (piece : string)
  (pieces : list string) :
  String.concat sep (String c piece :: pieces)
  = String c (String.concat sep (piece :: pieces)).
Proof. now destruct pieces. Qed.

Lemma concat_cons_more (sep first piece : string) (pieces : list string) :
  String.concat sep (first :: piece :: pieces)
  = first ++ sep ++ String.concat sep (piece :: pieces).
Proof. reflexivity. Qed.

(** The pieces between the occurrences of a character, joined by it, are
    the text. *)
Lemma concat_split_at (sep : ascii) (text : string) :
  String.concat (String sep "") (split_at sep text) = text.
Proof.
  induction text as [|c rest IH]; [reflexivity|]. cbn [split_at].
  destruct (split_at_cons sep rest) as (piece & pieces & Hsplit).
  rewrite Hsplit in *. destruct (c =? sep)%char eqn:Hc.
  - apply Ascii.eqb_eq in Hc as ->.
    rewrite concat_cons_more, IH. reflexivity.
  - now rewrite concat_cons_char, IH.
Qed.

(** No piece contains the character. *)
Lemma split_at_pieces (text : string) :
  Forall (fun piece => count_placeholders piece = 0) (spec_split text).
Proof.
  unfold spec_split. induction text as [|c rest IH]; cbn [split_at].
  - now constructor.
  - destruct (split_at_cons "?" rest) as (piece & pieces & Hsplit).
    rewrite Hsplit in *. destruct (c =? "?")%char eqn:Hc.
    + now constructor.
    + inversion IH; subst. constructor; [|assumption].
      cbn [count_placeholders]. now rewrite Hc.
Qed.

(** [double_quotes] doubles the single quotes and changes nothing else. *)
Lemma double_quotes_split (str : string) :
  double_quotes str = String.concat "''" (split_at "'" str).
Proof.
  induction str as [|c rest IH]; [reflexivity|]. cbn [split_at double_quotes].
  destruct (split_at_cons "'" rest) as (piece & pieces & Hsplit).
  rewrite Hsplit in *. destruct (c =? "'")%char eqn:Hc.
  - apply Ascii.eqb_eq in Hc as ->.
    rewrite concat_cons_more, <- IH. reflexivity.
  - now rewrite concat_cons_char, IH.
Qed.

Lemma digit_cases (k : Z) :
  (0 <= k < 10)%Z ->
  k = 0%Z \/ k = 1%Z \/ k = 2%Z \/ k = 3%Z \/ k = 4%Z \/ k = 5%Z \/ k = 6%Z
  \/ k = 7%Z \/ k = 8%Z \/ k = 9%Z.
Proof. lia. Qed.

(** The character of a digit is the one the library writes for it. *)
Lemma digit_char (k : Z) (acc : Decimal.uint) :
  (0 <= k < 10)%Z ->
  exists d,
    String (ascii_of_nat (48 + Z.to_nat k)) (NilEmpty.string_of_uint acc)
    = NilEmpty.string_of_uint d
    /\ d <> Decimal.Nil
    /\ ((0 < k)%Z -> Decimal.nzhead d = d).
Proof.
  intros Hk.
  destruct (digit_cases k Hk)
    as [->|[->|[->|[->|[->|[->|[->|[->|[->| ->]]]]]]]]];
    [exists (Decimal.D0 acc)|exists (Decimal.D1 acc)|exists (Decimal.D2 acc)
    |exists (Decimal.D3 acc)|exists (Decimal.D4 acc)|exists (Decimal.D5 acc)
    |exists (Decimal.D6 acc)|exists (Decimal.D7 acc)|exists (Decimal.D8 acc)
    |exists (Decimal.D9 acc)];
    (split; [reflexivity|split; [discriminate|]]);
    intros H; try reflexivity; lia.
Qed.

Lemma digit_value_char (k : Z) :
  (0 <= k < 10)%Z ->
  digit_value 10 (ascii_of_nat (48 + Z.to_nat k)) = Some k.
Proof.
  intros Hk.
  destruct (digit_cases k Hk)
    as [->|[->|[->|[->|[->|[->|[->|[->|[->| ->]]]]]]]]];
    reflexivity.
Qed.

Lemma spec_digits_uint (fuel : nat) :
  forall n acc,
    (0 < n < 10 ^ Z.of_nat (S fuel))%Z ->
    exists d,
      spec_digits fuel n (NilEmpty.string_of_uint acc)
      = NilEmpty.string_of_uint d
      /\ d <> Decimal.Nil /\ Decimal.nzhead d = d.
Proof.
  induction fuel as [|fuel IH]; intros n acc Hn.
  - cbn [spec_digits]. change (10 ^ Z.of_nat 1)%Z with 10%Z in Hn.
    rewrite Z.mod_small by lia.
    destruct (digit_char n acc) as (d & Hd & Hnil & Hhead); [lia|].
    exists d. repeat split; try assumption. apply Hhead. lia.
  - cbn [spec_digits]. destruct (n <? 10)%Z eqn:Hsmall.
    + apply Z.ltb_lt in Hsmall. rewrite Z.mod_small by lia.
      destruct (digit_char n acc) as (d & Hd & Hnil & Hhead); [lia|].
      exists d. repeat split; try assumption. apply Hhead. lia.
    + apply Z.ltb_ge in Hsmall.
      destruct (digit_char (n mod 10) acc) as (d1 & Hd1 & _);
        [apply Z.mod_pos_bound; lia|].
      rewrite Hd1. apply IH. split.
      * apply Z.div_str_pos. lia.
      * apply Z.div_lt_upper_bound; [lia|].
        rewrite Nat2Z.inj_succ, Z.pow_succ_r in Hn by lia. lia.
Qed.

Lemma spec_digits_value (fuel : nat) :
  forall n rest,
    (0 <= n < 10 ^ Z.of_nat (S fuel))%Z ->
    exists L,
      forall a c,
        digits 10 (spec_digits fuel n rest) a c
        = digits 10 rest (a * 10 ^ Z.of_nat L + n)%Z (c + L).
Proof.
  assert (Hone : forall n rest, (0 <= n < 10)%Z ->
            exists L, forall a c,
              digits 10
                (String (ascii_of_nat (48 + Z.to_nat (n mod 10))) rest) a c
              = digits 10 rest (a * 10 ^ Z.of_nat L + n)%Z (c + L)).
  { intros n rest Hn. exists 1. intros a c. cbn [digits].
    rewrite Z.mod_small by lia. rewrite digit_value_char by lia.
    change (10 ^ Z.of_nat 1)%Z with 10%Z. now rewrite Nat.add_1_r. }
  induction fuel as [|fuel IH]; intros n rest Hn.
  - cbn [spec_digits]. apply Hone. change (10 ^ Z.of_nat 1)%Z with 10%Z in Hn.
    lia.
  - cbn [spec_digits]. destruct (n <? 10)%Z eqn:Hsmall.
    + apply Z.ltb_lt in Hsmall. apply Hone. lia.
    + apply Z.ltb_ge in Hsmall.
      destruct (IH (n / 10)%Z
                  (String (ascii_of_nat (48 + Z.to_nat (n mod 10))) rest))
        as [L HL].
      { split; [apply Z.div_pos; lia|].
        apply Z.div_lt_upper_bound; [lia|].
        rewrite Nat2Z.inj_succ, Z.pow_succ_r in Hn by lia. lia. }
      exists (S L). intros a c. rewrite HL. cbn [digits].
      rewrite digit_value_char by (apply Z.mod_pos_bound; lia).
      rewrite Nat2Z.inj_succ, Z.pow_succ_r by lia.
      rewrite Nat.add_succ_r. f_equal.
      pose proof (Z.div_mod n 10). lia.
Qed.

Lemma digits_of_uint_acc (d : Decimal.uint) :
  forall acc c,
    exists c',
      digits 10 (NilEmpty.string_of_uint d) (Zpos acc) c
      = (Zpos (Pos.of_uint_acc d acc), c', "").
Proof.
  induction d; intros acc c; cbn [NilEmpty.string_of_uint digits];
    [now eexists|..];
    match goal with
    | |- context [digit_value 10 ?ch] =>
        let k := eval vm_compute in (digit_value 10 ch) in
        change (digit_value 10 ch) with k
    end;
    cbn [Pos.of_uint_acc];
    match goal with
    | |- context [Pos.of_uint_acc d ?p] =>
        destruct (IHd p (S c)) as [c' Hc']; exists c'; rewrite <- Hc'
    end; f_equal; lia.
Qed.

Lemma digits_of_uint (d : Decimal.uint) :
  forall c,
    exists c',
      digits 10 (NilEmpty.string_of_uint d) 0 c
      = (Z.of_N (Pos.of_uint d), c', "").
Proof.
  induction d; intros c; cbn [NilEmpty.string_of_uint digits Pos.of_uint];
    [now eexists|..];
    match goal with
    | |- context [digit_value 10 ?ch] =>
        let k := eval vm_compute in (digit_value 10 ch) in
        change (digit_value 10 ch) with k
    end;
    [apply IHd|..];
    match goal with
    | |- context [Pos.of_uint_acc d ?p] =>
        destruct (digits_of_uint_acc d p (S c)) as [c' Hc']; exists c';
        exact Hc'
    end.
Qed.

Lemma spec_digits_to_uint (p : positive) :
  spec_digits (Z.to_nat (Z.log2 (Zpos p))) (Zpos p) ""
  = NilZero.string_of_uint (Pos.to_uint p).
Proof.
  assert (Hfuel : (0 < Zpos p
                   < 10 ^ Z.of_nat (S (Z.to_nat (Z.log2 (Zpos p)))))%Z).
  { split; [lia|]. rewrite Nat2Z.inj_succ, Z2Nat.id by apply Z.log2_nonneg.
    pose proof (Z.log2_spec (Zpos p) (Pos2Z.is_pos p)) as [_ Hlt].
    eapply Z.lt_le_trans; [exact Hlt|].
    apply Z.pow_le_mono_l. pose proof (Z.log2_nonneg (Zpos p)). lia. }
  destruct (spec_digits_uint _ (Zpos p) Decimal.Nil Hfuel)
    as (d & Hd & Hnil & Hhead).
  destruct (spec_digits_value _ (Zpos p) ""
              (conj (Pos2Z.is_nonneg p) (proj2 Hfuel)))
    as [L HL].
  specialize (HL 0%Z 0). cbn [NilEmpty.string_of_uint] in Hd.
  rewrite Hd in HL. destruct (digits_of_uint d 0) as [c' Hc'].
  rewrite Hc' in HL. cbn [digits] in HL.
  assert (Hvalue : Pos.of_uint d = Npos p) by (injection HL as H _; lia).
  assert (Hto : Pos.to_uint p = d).
  { change (Pos.to_uint p) with (N.to_uint (Npos p)).
    rewrite <- Hvalue, Unsigned.to_of. unfold Decimal.unorm. rewrite Hhead.
    now destruct d. }
  rewrite Hd, Hto. now destruct d.
Qed.

(** The digits [toString] prints are the remainders of the divisions by
    ten, the last first, after a minus sign for a negative number. *)
Lemma number_toString_decimal (n : Z) : number_toString n = spec_decimal n.
Proof.
  unfold number_toString, spec_decimal. destruct n as [|p|p].
  - reflexivity.
  - change (Z.pos p <? 0)%Z with false. cbv beta iota.
    now rewrite spec_digits_to_uint.
  - change (Z.neg p <? 0)%Z with true. cbv beta iota.
    change (- Z.neg p)%Z with (Zpos p). now rewrite spec_digits_to_uint.
Qed.

Lemma render_supported (pv : value) :
  supported pv = true -> render pv = Returns (spec_literal pv).
Proof.
  destruct pv; try discriminate; intros _; try reflexivity; cbn.
  - now rewrite number_toString_decimal.
  - now rewrite number_toString_decimal.
  - unfold quoteString. now rewrite double_quotes_split.
Qed.

Lemma render_unsupported (pv : value) :
  unsupported pv = true -> render pv = Throws (invalid_parameter_type pv).
Proof. now destruct pv. Qed.

Lemma render_returns (pv : value) :
  unsupported pv = false -> exists lit, render pv = Returns lit.
Proof. destruct pv; try discriminate; intros _; now eexists. Qed.

Lemma skipn_nth_cons {A : Type} (d : A) (xs : list A) :
  forall i, i < List.length xs ->
            skipn i xs = nth i xs d :: skipn (S i) xs.
Proof.
  induction xs as [|x xs IH]; intros i Hi; cbn in Hi; [lia|].
  destruct i as [|i]; [reflexivity|].
  cbn [skipn nth]. rewrite IH by lia. reflexivity.
Qed.

Lemma spec_substitute_cons_char (c : ascii) (piece : string)
  (pieces literals : list string) :
  spec_substitute (String c piece :: pieces) literals
  = String c (spec_substitute (piece :: pieces) literals).
Proof. destruct pieces; [reflexivity|]. now destruct literals. Qed.

Lemma replace_placeholders_substitutes (text : string) (params : list value) :
  forall paramIndex,
    forallb supported
      (firstn (count_placeholders text) (skipn paramIndex params)) = true ->
    replace_placeholders text params paramIndex
    = Returns (spec_substitute (spec_split text)
                 (map spec_literal (skipn paramIndex params))).
Proof.
  unfold spec_split.
  induction text as [|c rest IH]; intros i Hsupported; [reflexivity|].
  cbn [replace_placeholders split_at count_placeholders] in *.
  destruct (split_at_cons "?" rest) as (piece & pieces & Hsplit).
  destruct (c =? "?")%char eqn:Hc.
  - apply Ascii.eqb_eq in Hc as ->.
    destruct (i <? List.length params)%nat eqn:Hi.
    + apply Nat.ltb_lt in Hi.
      rewrite (skipn_nth_cons VUndefined) in * by assumption.
      cbn [Nat.add firstn forallb map] in *.
      apply andb_true_iff in Hsupported as [Hpv Hrest].
      rewrite (render_supported _ Hpv), (IH _ Hrest), Hsplit. reflexivity.
    + apply Nat.ltb_ge in Hi.
      rewrite IH by now rewrite (skipn_all2 params Hi), firstn_nil.
      now rewrite Hsplit, (skipn_all2 params Hi).
  - cbn [Nat.add] in Hsupported. rewrite (IH _ Hsupported), Hsplit.
    cbn [bind]. now rewrite spec_substitute_cons_char.
Qed.

(** C8. [toString()] cuts the text at its placeholders and fills the
    gaps, from left to right, with the renderings of the parameters in
    their order: [NULL] for [null], decimal digits for a BigInt and for
    a Number that is a safe integer, the string between single quotes
    with each single quote doubled, [X'..'] with the bytes in
    hexadecimal for a buffer; where the parameters have run out the
    placeholder stays. *)
Theorem toString_substitutes (this : SQL) :
  forallb supported
    (firstn (count_placeholders (sql this)) (params this)) = true ->
  toString this
  = Returns (spec_substitute (spec_split (sql this))
               (map spec_literal (params this)))
  /\ String.concat "?" (spec_split (sql this)) = sql this
  /\ Forall (fun piece => count_placeholders piece = 0)
       (spec_split (sql this))
  /\ toString (new_SQL (Text "SELECT * FROM t WHERE id=?") [VNum 5])
     = Returns "SELECT * FROM t WHERE id=5"
  /\ toString (new_SQL (Text "name=?") [VStr "O'Brien"])
     = Returns "name='O''Brien'"
  /\ toString (new_SQL (Text "a=? AND b=? AND c=?") [VNull; VBigInt (-7)])
     = Returns "a=NULL AND b=-7 AND c=?"
  /\ toString (new_SQL (Text "blob=?") [VBuffer [x00; xff; x4a]])
     = Returns "blob=X'00ff4a'".
Proof.
  intros Hsupported. repeat split; try reflexivity.
  - unfold toString. now apply replace_placeholders_substitutes.
  - apply concat_split_at.
  - apply split_at_pieces.
Qed.

Lemma toString_substitutes_witness :
  toString (mkSQL "x=? OR y=? OR z=?" [VStr "it's"; VNum 12] true None)
  = Returns "x='it''s' OR y=12 OR z=?".
Proof.
  exact (proj1 (toString_substitutes
                  (mkSQL "x=? OR y=? OR z=?" [VStr "it's"; VNum 12] true None)
                  eq_refl)).
Defined.

Lemma replace_placeholders_throws (text : string) (params : list value)
  (pv : value) :
  forall paramIndex,
    find unsupported
      (firstn (count_placeholders text) (skipn paramIndex params)) = Some pv ->
    replace_placeholders text params paramIndex
    = Throws (invalid_parameter_type pv).
Proof.
  induction text as [|c rest IH]; intros i Hfind;
    cbn [replace_placeholders count_placeholders] in *.
  - discriminate.
  - destruct (c =? "?")%char eqn:Hc.
    + destruct (i <? List.length params)%nat eqn:Hi.
      * apply Nat.ltb_lt in Hi.
        rewrite (skipn_nth_cons VUndefined) in Hfind by assumption.
        cbn [Nat.add firstn find] in Hfind.
        destruct (unsupported (nth i params VUndefined)) eqn:Hpv.
        -- inversion Hfind; subst. now rewrite render_unsupported.
        -- destruct (render_returns _ Hpv) as [lit ->].
           cbn [bind]. now rewrite (IH _ Hfind).
      * apply Nat.ltb_ge in Hi. rewrite (skipn_all2 params Hi) in Hfind.
        rewrite firstn_nil in Hfind. discriminate.
    + cbn [Nat.add] in Hfind. now rewrite (IH _ Hfind).
Qed.

(** C9. When one of the parameters that the placeholders of the text
    reach is of a type [toString] does not render, a Boolean, an array, a
    plain object, a builder or a function, [toString()] throws, and the
    message of the error names the [typeof] of the first such parameter;
    no text is returned. *)
Theorem toString_rejects_unsupported (this : SQL) :
  existsb unsupported
    (firstn (count_placeholders (sql this)) (params this)) = true ->
  exists pv,
    find unsupported
      (firstn (count_placeholders (sql this)) (params this)) = Some pv
    /\ unsupported pv = true
    /\ toString this
       = Throws
           (Error ("Invalid parameter type: '" ++ typeof pv
                   ++ "' must be number, string, bigint, buffer, or null")).
Proof.
  intros Hexists.
  destruct (find unsupported
              (firstn (count_placeholders (sql this)) (params this)))
    as [pv|] eqn:Hfind.
  - exists pv. split; [reflexivity|]. split.
    + now apply find_some in Hfind.
    + unfold toString. now apply replace_placeholders_throws.
  - apply existsb_exists in Hexists as (pv & Hin & Hpv).
    now rewrite (find_none _ _ Hfind _ Hin) in Hpv.
Qed.

Lemma toString_rejects_unsupported_witness :
  exists pv,
    find unsupported [VNum 1; VBool true] = Some pv
    /\ unsupported pv = true
    /\ toString (mkSQL "a=? AND b=?" [VNum 1; VBool true; VObj []] false None)
       = Throws
           (Error ("Invalid parameter type: '" ++ typeof pv
                   ++ "' must be number, string, bigint, buffer, or null")).
Proof.
  exact (toString_rejects_unsupported
           (mkSQL "a=? AND b=?" [VNum 1; VBool true; VObj []] false None)
           eq_refl).
Defined.

(** * Further properties *)

(** ** Lengths and placeholders of texts *)

Lemma length_append (a b : string) :
  String.length (a ++ b) = String.length a + String.length b.
Proof. induction a as [|c a IH]; cbn; [reflexivity | now rewrite IH]. Qed.

Lemma count_placeholders_append (a b : string) :
  count_placeholders (a ++ b) = count_placeholders a + count_placeholders b.
Proof.
  induction a as [|c a IH]; cbn; [reflexivity|]. rewrite IH. lia.
Qed.

Lemma count_placeholders_concat (sep : string) (texts : list string) :
  count_placeholders sep = 0 ->
  count_placeholders (String.concat sep texts) = total_placeholders texts.
Proof.
  intros Hsep. unfold total_placeholders.
  induction texts as [|text texts IH]; [reflexivity|].
  destruct texts as [|next texts]; [cbn; lia|].
  rewrite concat_cons_more, !count_placeholders_append, Hsep, IH.
  reflexivity.
Qed.

Lemma total_placeholders_push (texts : list string) (text : string) :
  total_placeholders (push texts text)
  = total_placeholders texts + count_placeholders text.
Proof.
  unfold total_placeholders, push.
  rewrite map_app, list_sum_app. cbn. lia.
Qed.

Lemma count_placeholders_marks (n : nat) :
  count_placeholders (String.concat "," (repeat "?" n)) = n.
Proof.
  rewrite count_placeholders_concat by reflexivity.
  unfold total_placeholders.
  unfold list_sum.
  induction n as [|n IH]; [reflexivity|]. cbn. now rewrite IH.
Qed.

(** ** The algebra of [append] *)

Lemma append_long_sql (this : SQL) (f : fragment) (rest : list value) :
  1 < String.length (sql this) -> f <> Absent ->
  sql (append this f rest) = sql this ++ " " ++ fragment_text f.
Proof.
  intros Hlen Hf. apply Nat.ltb_lt in Hlen.
  destruct f; [contradiction| |];
    unfold append, append_text, delete_hasWhere; cbn [sql fragment_text];
    now rewrite Hlen.
Qed.

Lemma append_builder_params (this : SQL) (text : string)
  (ps rest : list value) :
  params (append this (Builder text ps) rest) = (params this ++ ps)%list.
Proof. reflexivity. Qed.

(** X1. Builders compose associatively when the middle one holds a text
    of two characters or more: appending [c] to [a] joined with [b] is
    appending to [a] the builder made of [b] joined with [c].  A middle
    text of one character breaks it, see [append_assoc_fails]. *)
Theorem append_builders_assoc (a b c : SQL) :
  1 < String.length (sql b) ->
  append (append a (as_fragment b) []) (as_fragment c) []
  = append a (as_fragment (append b (as_fragment c) [])) [].
Proof.
  intros Hb. apply Nat.ltb_lt in Hb.
  unfold append, append_text, as_fragment, delete_hasWhere.
  cbn [sql params hasWhere values]. rewrite Hb.
  destruct (1 <? String.length (sql a))%nat eqn:Ha.
  - assert (Hab : (1 <? String.length (sql a ++ " " ++ sql b))%nat = true).
    { apply Nat.ltb_lt. rewrite length_append. apply Nat.ltb_lt in Ha. lia. }
    rewrite Hab. f_equal.
    + now rewrite !append_assoc.
    + now rewrite app_assoc.
  - rewrite Hb. f_equal. now rewrite app_assoc.
Qed.

Lemma append_builders_assoc_witness :
  let a := new_SQL (Text "SELECT * FROM t") [] in
  let b := new_SQL (Text "WHERE x > ?") [VNum 1] in
  let c := new_SQL (Text "AND y < ?") [VNum 2] in
  append (append a (as_fragment b) []) (as_fragment c) []
  = append a (as_fragment (append b (as_fragment c) [])) [].
Proof.
  cbv zeta.
  apply (append_builders_assoc
           (new_SQL (Text "SELECT * FROM t") [])
           (new_SQL (Text "WHERE x > ?") [VNum 1])
           (new_SQL (Text "AND y < ?") [VNum 2])).
  cbn. lia.
Defined.

Lemma append_assoc_fails :
  let a := new_SQL (Text "SELECT 1 WHERE") [] in
  let b := new_SQL (Text "(") [] in
  let c := new_SQL (Text "x = 1 )") [] in
  sql (append (append a (as_fragment b) []) (as_fragment c) [])
  = "SELECT 1 WHERE ( x = 1 )"
  /\ sql (append a (as_fragment (append b (as_fragment c) [])) [])
     = "SELECT 1 WHERE x = 1 )".
Proof. split; reflexivity. Qed.

(** ** The clause methods *)

Lemma append_keyword (this : SQL) (keyword : string) :
  sql (append this (Text keyword) []) = lead this ++ keyword.
Proof.
  unfold append, append_text, delete_hasWhere, lead. cbn [sql].
  destruct (1 <? String.length (sql this))%nat; [|reflexivity].
  now rewrite append_assoc.
Qed.

Lemma append_followed (this : SQL) (f : fragment) (rest : list value) :
  1 < String.length (sql this) ->
  sql (append this f rest) = followed (sql this) f.
Proof.
  intros Hlen. destruct f; [reflexivity| |];
    now rewrite append_long_sql.
Qed.

Lemma length_followed (text : string) (f : fragment) :
  String.length text <= String.length (followed text f).
Proof. destruct f; cbn [followed]; rewrite ?length_append; lia. Qed.

Lemma keyword_then_fragment (this : SQL) (keyword : string) (f : fragment)
  (rest : list value) :
  1 < String.length keyword ->
  sql (append (append this (Text keyword) []) f rest)
  = followed (lead this ++ keyword) f
  /\ params (append (append this (Text keyword) []) f rest)
     = params (append this f rest).
Proof.
  intros Hkeyword. split.
  - rewrite append_followed, append_keyword; [reflexivity|].
    rewrite append_keyword, length_append. lia.
  - now destruct f.
Qed.

(** X2. Each clause method puts its keyword after the text of the
    builder and the fragment it is given after the keyword, single
    spaces between them, and binds the parameters as [append] would; a
    call without fragment adds the keyword alone.  The keyword is never
    lost, though a text of one character before it is. *)
Theorem clause_methods (this : SQL) (f : fragment) (rest : list value) :
  (sql (insert this f rest) = followed (lead this ++ "INSERT INTO") f
   /\ sql (delete this f rest) = followed (lead this ++ "DELETE FROM") f
   /\ sql (update this f rest) = followed (lead this ++ "UPDATE") f
   /\ sql (insertOrReplace this f rest)
      = followed (lead this ++ "INSERT OR REPLACE INTO") f
   /\ sql (insertOrIgnore this f rest)
      = followed (lead this ++ "INSERT OR IGNORE INTO") f
   /\ sql (from this f rest) = followed (lead this ++ "FROM") f
   /\ sql (orderBy this f rest) = followed (lead this ++ "ORDER BY") f
   /\ sql (groupBy this f rest) = followed (lead this ++ "GROUP BY") f
   /\ sql (leftJoin this f rest) = followed (lead this ++ "LEFT JOIN") f)
  /\ (params (insert this f rest) = params (append this f rest)
      /\ params (delete this f rest) = params (append this f rest)
      /\ params (update this f rest) = params (append this f rest)
      /\ params (insertOrReplace this f rest) = params (append this f rest)
      /\ params (insertOrIgnore this f rest) = params (append this f rest)
      /\ params (from this f rest) = params (append this f rest)
      /\ params (orderBy this f rest) = params (append this f rest)
      /\ params (groupBy this f rest) = params (append this f rest)
      /\ params (leftJoin this f rest) = params (append this f rest)).
Proof.
  repeat split;
    match goal with
    | |- sql _ = _ => apply keyword_then_fragment; cbn; lia
    | |- params _ = _ => apply keyword_then_fragment; cbn; lia
    end.
Qed.

Lemma parens_long (this : SQL) (f : fragment) (rest : list value) :
  1 < String.length (sql this) ->
  sql (parens this f rest) = followed (sql this ++ " (") f ++ " )"
  /\ params (parens this f rest) = params (append this f rest).
Proof.
  intros Hlen. unfold parens.
  assert (Hopen : sql (append this (Text "(") []) = sql this ++ " (")
    by now rewrite append_long_sql.
  split; [|now destruct f].
  rewrite append_long_sql; [|rewrite append_followed|discriminate].
  - rewrite append_followed, Hopen; [reflexivity|].
    rewrite Hopen, length_append. lia.
  - pose proof (length_followed (sql (append this (Text "(") [])) f).
    rewrite Hopen, length_append in *. lia.
  - rewrite Hopen, length_append. lia.
Qed.

(** X3. On a builder whose text has two characters or more, [parens]
    adds the fragment between parentheses, a space on either side of
    each, and binds what [append] binds for the fragment. *)
Theorem parens_encloses (this : SQL) (f : fragment) (rest : list value) :
  1 < String.length (sql this) ->
  sql (parens this f rest) = followed (sql this ++ " (") f ++ " )"
  /\ params (parens this f rest) = params (append this f rest).
Proof. exact (parens_long this f rest). Qed.

Lemma parens_encloses_witness :
  sql (parens (new_SQL (Text "WHERE") []) (Text "a = ? OR b = ?")
         [VNum 1; VNum 2])
  = "WHERE ( a = ? OR b = ? )"
  /\ params (parens (new_SQL (Text "WHERE") []) (Text "a = ? OR b = ?")
               [VNum 1; VNum 2])
     = [VNum 1; VNum 2].
Proof.
  apply (parens_encloses (new_SQL (Text "WHERE") []) (Text "a = ? OR b = ?")
           [VNum 1; VNum 2]).
  cbn. lia.
Defined.

(** X4. [in] with a builder adds IN and the text of the builder between
    parentheses, a space inside each parenthesis, and binds the
    parameters of the builder; what follows the builder in the call is
    dropped. *)
Theorem in_subquery (this : SQL) (text : string) (ps rest : list value) :
  sql (in_ this (Builder text ps) rest) = lead this ++ "IN ( " ++ text ++ " )"
  /\ params (in_ this (Builder text ps) rest) = (params this ++ ps)%list.
Proof.
  unfold in_.
  assert (Hlong : 1 < String.length (sql (append this (Text "IN") []))).
  { rewrite append_keyword, length_append. cbn. lia. }
  destruct (parens_long _ (Builder text ps) [] Hlong) as [Hsql Hparams].
  rewrite Hsql, Hparams. cbn [followed fragment_text]. split.
  - rewrite append_keyword. now rewrite !append_assoc.
  - reflexivity.
Qed.

(** X5. For a page and a number of rows that are safe integers, with a
    product that is one, [takePage] is [skipTake] with the rows of the
    pages before: the pages are counted from one, page one skips
    nothing, page zero asks for a negative offset, and each page starts
    where the one before ends. *)
Theorem takePage_pages (this : SQL) (page rowsPerPage : Z) :
  safe_integer page = true -> safe_integer rowsPerPage = true ->
  safe_integer ((page - 1) * rowsPerPage) = true ->
  takePage this page rowsPerPage
  = Some (skipTake this (VNum ((page - 1) * rowsPerPage)) (VNum rowsPerPage))
  /\ takePage this 1 rowsPerPage
     = Some (skipTake this (VNum 0) (VNum rowsPerPage))
  /\ takePage this 0 rowsPerPage
     = Some (skipTake this (VNum (- rowsPerPage)) (VNum rowsPerPage))
  /\ (safe_integer (page + 1) = true ->
      safe_integer (page * rowsPerPage) = true ->
      takePage this (page + 1) rowsPerPage
      = Some (skipTake this (VNum ((page - 1) * rowsPerPage + rowsPerPage))
                (VNum rowsPerPage)))
  /\ option_map params (takePage this page rowsPerPage)
     = Some (params this
             ++ [VNum ((page - 1) * rowsPerPage); VNum rowsPerPage])%list.
Proof.
  intros Hpage Hrows Hproduct. unfold takePage, skipTake.
  rewrite Hpage, Hrows, Hproduct. cbn [andb option_map].
  split; [reflexivity|]. split; [|split; [|split; [|reflexivity]]].
  - replace ((1 - 1) * rowsPerPage)%Z with 0%Z by ring.
    change (safe_integer 1) with true. change (safe_integer 0) with true.
    reflexivity.
  - replace ((0 - 1) * rowsPerPage)%Z with (- rowsPerPage)%Z by ring.
    change (safe_integer 0) with true. unfold safe_integer in *.
    rewrite Z.abs_opp, Hrows. reflexivity.
  - intros Hnext Hproduct'.
    replace ((page + 1 - 1) * rowsPerPage)%Z
      with ((page - 1) * rowsPerPage + rowsPerPage)%Z by ring.
    replace ((page - 1) * rowsPerPage + rowsPerPage)%Z
      with (page * rowsPerPage)%Z in * by ring.
    now rewrite Hnext, Hproduct'.
Qed.

Lemma takePage_pages_witness :
  takePage (SQL_select SelectNone) 3 10
  = Some (mkSQL "SELECT * LIMIT ?, ?" [VNum 20; VNum 10] false None).
Proof.
  exact (proj1 (takePage_pages (SQL_select SelectNone) 3 10
                  eq_refl eq_refl eq_refl)).
Defined.

(** ** The WHERE family, further *)

Lemma append_ignores_hasWhere (this : SQL) (f : fragment) (rest : list value) :
  append (set_hasWhere this) f rest = append this f rest.
Proof. now destruct f. Qed.

Lemma and_ignores_hasWhere (this : SQL) (arguments : list value) :
  and_ (set_hasWhere this) arguments = and_ this arguments.
Proof. unfold and_. now rewrite append_ignores_hasWhere. Qed.

Lemma or_ignores_hasWhere (this : SQL) (arguments : list value) :
  or_ (set_hasWhere this) arguments = or_ this arguments.
Proof. unfold or_. now rewrite append_ignores_hasWhere. Qed.

Lemma buildCondition_nullish (arguments : list value) :
  nullish (nth 0 arguments VUndefined) = true ->
  buildCondition arguments = Throws TypeError.
Proof.
  unfold buildCondition.
  now destruct (nth 0 arguments VUndefined).
Qed.

(** X6. On a builder without a WHERE, [andWhere] and [orWhere] called
    without a condition, or with [null] or [undefined], emit nothing and
    still mark the WHERE as begun: the next [andWhere] emits AND and the
    next [orWhere] emits OR, with no WHERE before them. *)
Theorem andWhere_absent_condition (this : SQL) (absent : list value)
  (arguments : list value) :
  hasWhere this = false ->
  absent = [] \/ absent = [VNull] \/ absent = [VUndefined] ->
  andWhere this absent = Returns (set_hasWhere this)
  /\ orWhere this absent = Returns (set_hasWhere this)
  /\ bind (andWhere this absent) (fun this' => andWhere this' arguments)
     = bind (and_ this arguments) (fun r => Returns (set_hasWhere r))
  /\ bind (orWhere this absent) (fun this' => orWhere this' arguments)
     = bind (or_ this arguments) (fun r => Returns (set_hasWhere r)).
Proof.
  intros Hflag Habsent.
  assert (Hand : andWhere this absent = Returns (set_hasWhere this)).
  { unfold andWhere. rewrite Hflag.
    destruct Habsent as [->|[->| ->]]; reflexivity. }
  assert (Hor : orWhere this absent = Returns (set_hasWhere this)).
  { unfold orWhere. rewrite Hflag.
    destruct Habsent as [->|[->| ->]]; reflexivity. }
  rewrite Hand, Hor. cbn [bind].
  split; [reflexivity|]. split; [reflexivity|]. split.
  - unfold andWhere. cbn [hasWhere set_hasWhere].
    now rewrite and_ignores_hasWhere.
  - unfold orWhere. cbn [hasWhere set_hasWhere].
    now rewrite or_ignores_hasWhere.
Qed.

Lemma andWhere_absent_condition_witness :
  bind (andWhere empty [VUndefined])
    (fun this' => andWhere this' [VObj [("a", VNum 1)]])
  = Returns (mkSQL "AND (a = ?)" [VNum 1] true None).
Proof.
  exact (proj1 (proj2 (proj2
           (andWhere_absent_condition empty [VUndefined]
              [VObj [("a", VNum 1)]] eq_refl
              (or_intror (or_intror eq_refl)))))).
Defined.

(** X7. [and], [or] and [on] have no guard for a missing condition:
    called without a condition, or with [null] or [undefined], they
    throw a TypeError, and so do [andWhere] and [orWhere] once the
    builder has a WHERE; [where] throws as well when [null] or
    [undefined] is followed by a further argument. *)
Theorem condition_required (this : SQL) (arguments : list value) :
  nullish (nth 0 arguments VUndefined) = true ->
  and_ this arguments = Throws TypeError
  /\ or_ this arguments = Throws TypeError
  /\ on this arguments = Throws TypeError
  /\ (hasWhere this = true ->
      andWhere this arguments = Throws TypeError
      /\ orWhere this arguments = Throws TypeError)
  /\ (1 < List.length arguments -> where_ this arguments = Throws TypeError).
Proof.
  intros Hnull.
  pose proof (buildCondition_nullish arguments Hnull) as Hcond.
  split; [unfold and_; now rewrite Hcond|].
  split; [unfold or_; now rewrite Hcond|].
  split; [unfold on; now rewrite Hcond|].
  split.
  - intros Hflag. unfold andWhere, orWhere, and_, or_.
    now rewrite Hflag, Hcond.
  - intros Hmore. unfold where_. rewrite Hcond.
    destruct arguments as [|first [|second more]]; cbn in Hmore; try lia.
    reflexivity.
Qed.

Lemma condition_required_witness :
  and_ empty [] = Throws TypeError
  /\ andWhere (mkSQL "WHERE (a = ?)" [VNum 1] true None) [VUndefined]
     = Throws TypeError
  /\ where_ empty [VNull; VNum 1] = Throws TypeError.
Proof.
  split; [|split].
  - exact (proj1 (condition_required empty [] eq_refl)).
  - exact (proj1 (proj1 (proj2 (proj2 (proj2
             (condition_required
                (mkSQL "WHERE (a = ?)" [VNum 1] true None) [VUndefined]
                eq_refl)))) eq_refl)).
  - apply (proj2 (proj2 (proj2 (proj2
             (condition_required empty [VNull; VNum 1] eq_refl))))).
    cbn. lia.
Defined.

(** X8. The flag [hasWhere] does not outlive the next [append]: after a
    clause that follows the WHERE, here ORDER BY, [andWhere] and
    [orWhere] emit WHERE again. *)
Theorem andWhere_after_clause (this : SQL) (f : fragment) (rest : list value)
  (arguments : list value) :
  andWhere (orderBy this f rest) arguments
  = bind (where_ (orderBy this f rest) arguments)
      (fun r => Returns (set_hasWhere r))
  /\ orWhere (orderBy this f rest) arguments
     = bind (where_ (orderBy this f rest) arguments)
         (fun r => Returns (set_hasWhere r))
  /\ bind (where_ empty [VObj [("a", VNum 1)]])
       (fun this' =>
          andWhere (orderBy this' (Text "a") []) [VObj [("b", VNum 2)]])
     = Returns (mkSQL "WHERE (a = ?) ORDER BY a WHERE (b = ?)"
                  [VNum 1; VNum 2] true None).
Proof.
  unfold andWhere, orWhere, orderBy.
  rewrite !append_clears_hasWhere. repeat split.
Qed.

(** ** The condition compiler, further *)

Lemma build_expression_scalar (fuel : nat) (key : string) (v : value)
  (sql : list string) (params : list value) :
  scalar v = true ->
  build_expression (S fuel) key v (sql, params)
  = Returns (push sql (key ++ " = ?"), push params v).
Proof.
  intros Hscalar. cbn [build_expression].
  rewrite !scalar_get by assumption. now destruct v.
Qed.

Lemma for_each_scalars (props : obj) :
  forallb (fun kv => scalar (snd kv)) props = true ->
  forall (sql : list string) (params : list value),
    for_each
      (fun st kv =>
         let '(key, value) := kv in
         if reserved key then Returns st
         else build_expression (S (depth value)) key value st)
      props (sql, params)
    = Returns
        ((sql ++ map equality (columns_of props))%list,
         (params ++ map snd (columns_of props))%list).
Proof.
  induction props as [|[key v] props IH]; intros Hscalar sql params.
  - cbn. now rewrite !app_nil_r.
  - cbn [forallb snd] in Hscalar.
    apply andb_true_iff in Hscalar as [Hv Hrest].
    unfold columns_of in *.
    cbn [for_each filter fst]. destruct (reserved key); cbn [negb bind].
    + now apply IH.
    + rewrite build_expression_scalar by assumption. cbn [bind].
      rewrite IH by assumption. unfold push, equality. cbn [map fst snd].
      now rewrite <- !app_assoc.
Qed.

(** X9. A mapping whose values are all plain scalars compiles to the
    equalities of its columns, in their order, joined by AND between one
    pair of parentheses, the values being the parameters in the same
    order; marker keys are left out.  The column names are not quoted. *)
Theorem scalar_conditions_anded (props : obj) (rest : list value) :
  forallb (fun kv => scalar (snd kv)) props = true ->
  columns_of props <> [] ->
  buildCondition (VObj props :: rest)
  = Returns
      (Builder
         ("(" ++ String.concat " AND " (map equality (columns_of props))
          ++ ")")
         (map snd (columns_of props))).
Proof.
  intros Hscalar Hcolumns. unfold buildCondition.
  cbn [nth entries bind]. rewrite for_each_scalars by assumption.
  cbn [bind app].
  destruct (columns_of props) as [|column more]; [contradiction|].
  reflexivity.
Qed.

Lemma scalar_conditions_anded_witness :
  buildCondition
    [VObj [("name", VStr "John"); ("$limit", VNum 5); ("age", VNum 30)]]
  = Returns (Builder "(name = ? AND age = ?)" [VStr "John"; VNum 30]).
Proof.
  apply (scalar_conditions_anded
           [("name", VStr "John"); ("$limit", VNum 5); ("age", VNum 30)] []).
  - reflexivity.
  - discriminate.
Defined.

(** X10. Of the comparison operators a value object carries, the first
    in the order [$ne], [$lt], [$gt], [$lte], [$gte], [$le], [$ge]
    decides the expression and its operand is the only parameter bound;
    whatever else the object carries is ignored.  So
    [{$gte: 18, $lt: 65}] compiles to the upper bound alone. *)
Theorem first_comparison_wins (fuel : nat) (key : string) (props : obj)
  (sql : list string) (params : list value) (operator symbol : string) :
  find (fun c => carries props (fst c)) comparisons
  = Some (operator, symbol) ->
  build_expression (S fuel) key (VObj props) (sql, params)
  = Returns (push sql ("`" ++ key ++ "` " ++ symbol ++ " ?"),
             push params (lookup operator props)).
Proof.
  intros Hfind. cbn [build_expression is_null get bind].
  unfold comparisons, carries in Hfind. cbn [find fst] in Hfind.
  repeat match type of Hfind with
         | (if ?c then _ else _) = _ => destruct c
         end;
    inversion Hfind; subst; reflexivity.
Qed.

Lemma first_comparison_wins_witness :
  build_expression 1 "age" (VObj [("$gte", VNum 18); ("$lt", VNum 65)])
    ([], [])
  = Returns (["`age` < ?"], [VNum 65]).
Proof.
  exact (first_comparison_wins 0 "age" [("$gte", VNum 18); ("$lt", VNum 65)]
           [] [] "$lt" "<" eq_refl).
Defined.

(** X11. With none of the operators tested before it carried, [$in]
    with an array compiles to IN and one placeholder an element, the
    elements being bound in their order, an empty array giving [IN ()];
    with a builder it compiles to IN and the text of the builder between
    parentheses, the parameters of the builder being bound. *)
Theorem in_operator (fuel : nat) (key : string) (props : obj)
  (sql : list string) (params : list value) :
  forallb (fun operator => negb (carries props operator)) before_in = true ->
  is_null (lookup "$is" props) = false ->
  is_null (lookup "$isnot" props) = false ->
  (forall elems,
      lookup "$in" props = VArr elems ->
      build_expression (S fuel) key (VObj props) (sql, params)
      = Returns (push sql ("`" ++ key ++ "` IN ("
                           ++ placeholders (List.length elems) ++ ")"),
                 (params ++ elems)%list)
      /\ count_placeholders (placeholders (List.length elems))
         = List.length elems)
  /\ (forall text ps,
         lookup "$in" props = VSQL text ps ->
         build_expression (S fuel) key (VObj props) (sql, params)
         = Returns (push sql ("`" ++ key ++ "` IN (" ++ text ++ ")"),
                    (params ++ ps)%list)).
Proof.
  intros Hnone His Hisnot.
  assert (Hop : forall operator, In operator before_in ->
                                 defined (lookup operator props) = false)
    by (intros; now apply not_carried with before_in).
  assert (Hcascade : forall in_,
             lookup "$in" props = in_ -> defined in_ = true ->
             build_expression (S fuel) key (VObj props) (sql, params)
             = match in_ with
               | VSQL text ps =>
                   Returns (push sql ("`" ++ key ++ "` IN (" ++ text ++ ")"),
                            (params ++ ps)%list)
               | _ =>
                   bind (array_of_length in_)
                     (fun _ =>
                        bind (iterate in_)
                          (fun elems =>
                             Returns
                               (push sql
                                  ("`" ++ key ++ "` IN ("
                                   ++ placeholders (List.length elems)
                                   ++ ")"),
                                (params ++ elems)%list)))
               end).
  { intros in_ Hin Hdef. cbn [build_expression is_null get bind].
    repeat match goal with
           | |- context [defined (lookup ?operator props)] =>
               rewrite (Hop operator) by (cbn; tauto)
           end.
    rewrite His, Hisnot, Hin, Hdef. now destruct in_. }
  split.
  - intros elems Hin. split.
    + now rewrite (Hcascade _ Hin eq_refl).
    + apply count_placeholders_marks.
  - intros text ps Hin. now rewrite (Hcascade _ Hin eq_refl).
Qed.

Lemma in_operator_witness :
  build_expression 1 "id" (VObj [("$in", VArr [VNum 1; VNum 2; VNum 3])])
    ([], [])
  = Returns (["`id` IN (?,?,?)"], [VNum 1; VNum 2; VNum 3])
  /\ build_expression 1 "id" (VObj [("$in", VArr [])]) ([], [])
     = Returns (["`id` IN ()"], [])
  /\ build_expression 1 "userId"
       (VObj [("$in", VSQL "SELECT id FROM active WHERE age > ?" [VNum 18])])
       ([], [])
     = Returns (["`userId` IN (SELECT id FROM active WHERE age > ?)"],
                [VNum 18]).
Proof.
  split; [|split].
  - exact (proj1 (proj1 (in_operator 0 "id"
             [("$in", VArr [VNum 1; VNum 2; VNum 3])] [] []
             eq_refl eq_refl eq_refl) _ eq_refl)).
  - exact (proj1 (proj1 (in_operator 0 "id" [("$in", VArr [])] [] []
             eq_refl eq_refl eq_refl) _ eq_refl)).
  - exact (proj2 (in_operator 0 "userId"
             [("$in", VSQL "SELECT id FROM active WHERE age > ?" [VNum 18])]
             [] [] eq_refl eq_refl eq_refl) _ _ eq_refl).
Defined.

Lemma operator_free_get (v : value) (operator : string) :
  operator_free v = true ->
  In operator value_operators ->
  get v operator = Returns VUndefined.
Proof.
  destruct v; try discriminate; try reflexivity.
  cbn [operator_free get]. intros Hfree Hin.
  apply andb_true_iff in Hfree as [Hfree _].
  apply andb_true_iff in Hfree as [Hfree _].
  f_equal. apply defined_false. now apply not_carried with value_operators.
Qed.

Lemma operator_free_is (v : value) :
  operator_free v = true ->
  exists is_ isnot,
    get v "$is" = Returns is_ /\ is_null is_ = false
    /\ get v "$isnot" = Returns isnot /\ is_null isnot = false.
Proof.
  destruct v; try discriminate; intros Hfree;
    try (exists VUndefined, VUndefined; now repeat split).
  cbn [operator_free] in Hfree.
  apply andb_true_iff in Hfree as [Hfree Hisnot].
  apply andb_true_iff in Hfree as [_ His].
  exists (lookup "$is" props), (lookup "$isnot" props). cbn [get].
  repeat split.
  - now destruct (is_null (lookup "$is" props)).
  - now destruct (is_null (lookup "$isnot" props)).
Qed.

(** X12. A value that carries no operator is compared for equality
    whatever it is: an array, a buffer, a builder, a function or a plain
    object without operator key, the empty object included, compiles to
    [key = ?], the name unquoted, and is itself bound as the parameter;
    nothing is refused. *)
Theorem operator_free_is_equality (fuel : nat) (key : string) (v : value)
  (sql : list string) (params : list value) :
  operator_free v = true ->
  build_expression (S fuel) key v (sql, params)
  = Returns (push sql (key ++ " = ?"), push params v).
Proof.
  intros Hfree. cbn [build_expression].
  destruct (operator_free_is v Hfree)
    as (is_ & isnot & His & Hisnull & Hisnot & Hisnotnull).
  assert (Hnull : is_null v = false) by now destruct v.
  rewrite Hnull, His, Hisnot.
  repeat match goal with
         | |- context [get v ?operator] =>
             rewrite (operator_free_get v operator Hfree) by (cbn; tauto)
         end.
  cbn [bind defined]. now rewrite Hisnull, Hisnotnull.
Qed.

Lemma operator_free_is_equality_witness :
  build_expression 1 "tags" (VArr [VStr "a"; VStr "b"]) ([], [])
  = Returns (["tags = ?"], [VArr [VStr "a"; VStr "b"]])
  /\ build_expression 1 "meta" (VObj [("$is", VNum 5)]) ([], [])
     = Returns (["meta = ?"], [VObj [("$is", VNum 5)]]).
Proof.
  split.
  - exact (operator_free_is_equality 0 "tags" (VArr [VStr "a"; VStr "b"])
             [] [] eq_refl).
  - exact (operator_free_is_equality 0 "meta" (VObj [("$is", VNum 5)])
             [] [] eq_refl).
Defined.

(** ** Placeholders and parameters stay aligned *)

Lemma subqueries_aligned_lookup (name : string) (props : obj) :
  forallb (fun kv => subqueries_aligned (snd kv)) props = true ->
  subqueries_aligned (lookup name props) = true.
Proof.
  induction props as [|[k v] props IH]; cbn [lookup forallb snd];
    [reflexivity|].
  intros Hall. apply andb_true_iff in Hall as [Hv Hrest].
  destruct (k =? name); [assumption | now apply IH].
Qed.

Lemma subqueries_aligned_chars (s : string) :
  forallb subqueries_aligned (chars s) = true.
Proof. induction s as [|c s IH]; cbn; [reflexivity | assumption]. Qed.

Lemma subqueries_aligned_iterate (v : value) (elems : list value) :
  subqueries_aligned v = true ->
  iterate v = Returns elems ->
  forallb subqueries_aligned elems = true.
Proof.
  destruct v; cbn [iterate]; intros Hv Hit; inversion Hit; subst.
  - apply subqueries_aligned_chars.
  - apply forallb_forall. intros e He.
    apply in_map_iff in He as (b & <- & _). reflexivity.
  - exact Hv.
Qed.

Lemma subqueries_aligned_get (v x : value) (name : string) :
  subqueries_aligned v = true ->
  get v name = Returns x ->
  subqueries_aligned x = true.
Proof.
  destruct v; cbn [get]; intros Hv Hget; inversion Hget; subst;
    try reflexivity.
  now apply subqueries_aligned_lookup.
Qed.

Lemma for_each_aligned {A : Type}
  (body : list string * list value -> A
          -> outcome (list string * list value))
  (subs : list A) :
  (forall sub sql params sql' params',
      In sub subs ->
      body (sql, params) sub = Returns (sql', params') ->
      total_placeholders sql' + List.length params
      = total_placeholders sql + List.length params') ->
  forall sql params sql' params',
    for_each body subs (sql, params) = Returns (sql', params') ->
    total_placeholders sql' + List.length params
    = total_placeholders sql + List.length params'.
Proof.
  induction subs as [|sub subs IH]; intros Hbody sql params sql' params' Hfor.
  - cbn in Hfor. inversion Hfor; subst. reflexivity.
  - cbn [for_each] in Hfor.
    destruct (body (sql, params) sub) as [[sql1 params1]| |] eqn:Hsub;
      try discriminate.
    cbn [bind] in Hfor.
    pose proof (Hbody _ _ _ _ _ (or_introl eq_refl) Hsub).
    assert (total_placeholders sql' + List.length params1
            = total_placeholders sql1 + List.length params').
    { apply IH; [|assumption]. intros. eapply Hbody; eauto. now right. }
    lia.
Qed.

Ltac count_texts Hkey :=
  rewrite ?total_placeholders_push; unfold push, placeholders;
  rewrite ?length_app;
  repeat (progress
            (cbn [count_placeholders List.length Ascii.eqb Bool.eqb Nat.add
                  String.append];
             rewrite ?count_placeholders_append, ?Hkey,
               ?count_placeholders_marks;
             rewrite ?count_placeholders_concat by reflexivity)).

Ltac aligned_leaf H Hkey :=
  injection H as <- <-; count_texts Hkey; try lia.

Ltac aligned_cascade H :=
  repeat match type of H with
         | Throws _ = Returns _ => discriminate H
         | OutOfFuel = Returns _ => discriminate H
         | (if ?c then _ else _) = Returns _ => destruct c eqn:?
         | bind (get ?v ?name) _ = Returns _ =>
             let x := fresh "x" in
             destruct (get v name) as [x| |] eqn:?; cbn [bind] in H
         | bind (iterate ?v) _ = Returns _ =>
             let elems := fresh "elems" in
             destruct (iterate v) as [elems| |] eqn:?; cbn [bind] in H
         | bind (array_of_length ?v) _ = Returns _ =>
             destruct (array_of_length v) as [[]| |] eqn:?; cbn [bind] in H
         | bind (for_each ?body ?subs ?st) _ = Returns _ =>
             let sub_sql := fresh "sub_sql" in
             let sub_params := fresh "sub_params" in
             destruct (for_each body subs st)
               as [[sub_sql sub_params]| |] eqn:?; cbn [bind] in H
         | bind (build_expression ?fuel ?key ?v ?st) _ = Returns _ =>
             let sub_sql := fresh "sub_sql" in
             let sub_params := fresh "sub_params" in
             destruct (build_expression fuel key v st)
               as [[sub_sql sub_params]| |] eqn:?; cbn [bind] in H
         | match ?x with _ => _ end = Returns _ => destruct x eqn:?
         end.

Lemma build_expression_aligned (fuel : nat) (key : string) :
  count_placeholders key = 0 ->
  forall (v : value) (sql : list string) (params : list value)
         (sql' : list string) (params' : list value),
    subqueries_aligned v = true ->
    build_expression fuel key v (sql, params) = Returns (sql', params') ->
    total_placeholders sql' + List.length params
    = total_placeholders sql + List.length params'.
Proof.
  intros Hkey. induction fuel as [|fuel IH];
    intros v sql params sql' params' Hv Hbuild; [discriminate|].
  cbn [build_expression] in Hbuild.
  aligned_cascade Hbuild.
  all: try match goal with
           | H : defined VUndefined = true |- _ => discriminate H
           | H : iterate _ = Returns _ |- _ => cbn in H; discriminate H
           | H : array_of_length _ = Returns _ |- _ => cbn in H; discriminate H
           end.
  all: try match goal with
           | Hal : subqueries_aligned ?v = true,
             Hget : get ?v _ = Returns (VSQL _ _) |- _ =>
               let Hq := fresh "Hq" in
               pose proof (subqueries_aligned_get _ _ _ Hal Hget) as Hq;
               cbn in Hq; apply Nat.eqb_eq in Hq
           | Hal : subqueries_aligned ?v = true,
             Hget : get ?v _ = Returns ?x, Hit : iterate ?x = Returns ?subs,
             Hfor : for_each _ ?subs _ = Returns _ |- _ =>
               let Hsubs := fresh "Hsubs" in
               pose proof (subqueries_aligned_iterate _ _
                             (subqueries_aligned_get _ _ _ Hal Hget) Hit)
                 as Hsubs;
               rewrite forallb_forall in Hsubs;
               apply for_each_aligned in Hfor;
               [|intros; eapply IH; [|eassumption]; auto]
           | Hal : subqueries_aligned ?v = true,
             Hget : get ?v _ = Returns ?x,
             Hrec : build_expression _ _ ?x _ = Returns _ |- _ =>
               apply IH in Hrec;
               [|exact (subqueries_aligned_get _ _ _ Hal Hget)]
           end.
  all: change (total_placeholders []) with 0 in *.
  all: aligned_leaf Hbuild Hkey.
Qed.

Lemma short_text_plain (text : string) :
  String.length text <= 1 -> text <> "?" -> count_placeholders text = 0.
Proof.
  destruct text as [|c [|d text]]; cbn; intros Hlen Hq; try lia.
  destruct (c =? "?")%char eqn:Hc; [|reflexivity].
  apply Ascii.eqb_eq in Hc. now subst.
Qed.

Lemma append_params_appended (this : SQL) (f : fragment) (rest : list value) :
  params (append this f rest) = (params this ++ appended f rest)%list.
Proof.
  destruct f as [|text|text ps]; cbn; [now rewrite app_nil_r| |reflexivity].
  destruct rest as [|[] rest]; cbn; try reflexivity; now rewrite app_nil_r.
Qed.

Lemma append_aligned (this : SQL) (f : fragment) (rest : list value) :
  aligned this -> sql this <> "?" ->
  count_placeholders (fragment_text f) = List.length (appended f rest) ->
  aligned (append this f rest).
Proof.
  unfold aligned. intros Hthis Hq Hf.
  rewrite append_params_appended, length_app.
  destruct f as [|text|text ps].
  - cbn in *. lia.
  - destruct (Nat.lt_ge_cases 1 (String.length (sql this))) as [Hlen|Hlen].
    + rewrite append_text_sql_long by assumption.
      rewrite !count_placeholders_append. cbn in *. lia.
    + rewrite append_text_sql_short by assumption.
      rewrite (short_text_plain _ Hlen Hq) in Hthis. cbn in *. lia.
  - destruct (Nat.lt_ge_cases 1 (String.length (sql this))) as [Hlen|Hlen].
    + rewrite append_long_sql by (assumption || discriminate).
      rewrite !count_placeholders_append. cbn in *. lia.
    + rewrite append_builder, append_text_sql_short by assumption.
      rewrite (short_text_plain _ Hlen Hq) in Hthis. cbn in *. lia.
Qed.

Lemma append_keyword_aligned (this : SQL) (keyword : string) :
  aligned this -> sql this <> "?" ->
  count_placeholders keyword = 0 -> 1 < String.length keyword ->
  aligned (append this (Text keyword) [])
  /\ sql (append this (Text keyword) []) <> "?".
Proof.
  intros Hthis Hq Hplain Hlen. split.
  - now apply append_aligned.
  - rewrite append_keyword. intros Heq.
    apply (f_equal String.length) in Heq.
    rewrite length_append in Heq. cbn in Heq. lia.
Qed.

Lemma condition_fragment (texts : list string) (ps : list value) :
  (if (List.length texts =? 0)%nat then Returns (Text "TRUE")
   else
     Returns
       (as_fragment
          (new_SQL (Text ("(" ++ String.concat " AND " texts ++ ")"))
             [VArr ps])))
  = Returns
      (if (List.length texts =? 0)%nat then Text "TRUE"
       else Builder ("(" ++ String.concat " AND " texts ++ ")") ps).
Proof. now destruct texts. Qed.

Lemma buildCondition_mapping_aligned (props : obj) (rest : list value)
  (f : fragment) :
  plain_keys props = true ->
  subqueries_aligned (VObj props) = true ->
  buildCondition (VObj props :: rest) = Returns f ->
  aligned_fragment f.
Proof.
  intros Hkeys Hsub Hcond. unfold buildCondition in Hcond.
  cbn [nth entries bind] in Hcond.
  match type of Hcond with
  | bind (for_each ?body ?xs ?st) _ = _ =>
      destruct (for_each body xs st) as [[texts ps]| |] eqn:Hfor;
        try discriminate Hcond
  end.
  cbn [bind] in Hcond.
  apply for_each_aligned in Hfor.
  - change (total_placeholders []) with 0 in Hfor. cbn [List.length] in Hfor.
    rewrite condition_fragment in Hcond. injection Hcond as <-.
    destruct texts as [|text texts]; [reflexivity|].
    change (count_placeholders
              ("(" ++ String.concat " AND " (text :: texts) ++ ")")
            = List.length ps).
    rewrite !count_placeholders_append.
    rewrite count_placeholders_concat by reflexivity.
    change (count_placeholders "(") with 0.
    change (count_placeholders ")") with 0. lia.
  - intros [key v] sql0 params0 sql1 params1 Hin Hbody.
    destruct (reserved key); [now inversion Hbody|].
    unfold plain_keys in Hkeys. rewrite forallb_forall in Hkeys.
    specialize (Hkeys _ Hin). cbn in Hkeys. apply Nat.eqb_eq in Hkeys.
    cbn [subqueries_aligned] in Hsub. rewrite forallb_forall in Hsub.
    specialize (Hsub _ Hin). cbn in Hsub.
    eapply build_expression_aligned; eassumption.
Qed.

Lemma aligned_fragment_appended (f : fragment) :
  aligned_fragment f ->
  count_placeholders (fragment_text f) = List.length (appended f []).
Proof. destruct f; cbn; auto. Qed.

Lemma keyword_condition_aligned (this : SQL) (keyword : string) (props : obj)
  (f : fragment) :
  aligned this -> sql this <> "?" ->
  count_placeholders keyword = 0 -> 1 < String.length keyword ->
  plain_keys props = true ->
  subqueries_aligned (VObj props) = true ->
  buildCondition [VObj props] = Returns f ->
  aligned (append (append this (Text keyword) []) f []).
Proof.
  intros Hthis Hq Hplain Hlen Hkeys Hsub Hcond.
  destruct (append_keyword_aligned this keyword Hthis Hq Hplain Hlen)
    as [Haligned Hnot].
  apply append_aligned; [assumption..|].
  apply aligned_fragment_appended.
  now apply buildCondition_mapping_aligned with props [].
Qed.

(** X13. A condition mapping whose keys hold no placeholder and whose
    sub-queries have as many placeholders as parameters compiles to a
    fragment with as many placeholders as parameters, and [where],
    [and], [or], [on], [andWhere] and [orWhere] with such a mapping keep
    a builder that has as many placeholders as parameters in that state,
    unless its whole text is a single placeholder. *)
Theorem conditions_stay_aligned (this : SQL) (props : obj) :
  aligned this -> sql this <> "?" ->
  plain_keys props = true ->
  subqueries_aligned (VObj props) = true ->
  (forall f, buildCondition [VObj props] = Returns f -> aligned_fragment f)
  /\ (forall r, where_ this [VObj props] = Returns r -> aligned r)
  /\ (forall r, and_ this [VObj props] = Returns r -> aligned r)
  /\ (forall r, or_ this [VObj props] = Returns r -> aligned r)
  /\ (forall r, on this [VObj props] = Returns r -> aligned r)
  /\ (forall r, andWhere this [VObj props] = Returns r -> aligned r)
  /\ (forall r, orWhere this [VObj props] = Returns r -> aligned r).
Proof.
  intros Hthis Hq Hkeys Hsub.
  assert (Hkeyword : forall keyword r,
             count_placeholders keyword = 0 -> 1 < String.length keyword ->
             bind (buildCondition [VObj props])
               (fun condition =>
                  Returns (append (append this (Text keyword) []) condition []))
             = Returns r ->
             aligned r).
  { intros keyword r Hplain Hlen Hr.
    destruct (buildCondition [VObj props]) as [f| |] eqn:Hcond;
      try discriminate Hr.
    cbn [bind] in Hr. injection Hr as <-.
    now apply keyword_condition_aligned with props. }
  assert (Hwhere : forall r, where_ this [VObj props] = Returns r -> aligned r).
  { intros r Hr. unfold where_ in Hr. cbn [List.length Nat.eqb nth nullish
      andb orb] in Hr.
    destruct (buildCondition [VObj props]) as [f| |] eqn:Hcond;
      try discriminate Hr.
    cbn [bind] in Hr. injection Hr as <-.
    apply (keyword_condition_aligned this "WHERE" props f); try assumption;
      cbn; lia. }
  assert (Hand : forall r, and_ this [VObj props] = Returns r -> aligned r)
    by (intros r Hr; apply (Hkeyword "AND" r); [reflexivity | cbn; lia |
        exact Hr]).
  assert (Hor : forall r, or_ this [VObj props] = Returns r -> aligned r)
    by (intros r Hr; apply (Hkeyword "OR" r); [reflexivity | cbn; lia |
        exact Hr]).
  repeat split; try assumption.
  - intros f Hf. now apply buildCondition_mapping_aligned with props [].
  - intros r Hr. apply (Hkeyword "ON" r); [reflexivity | cbn; lia | exact Hr].
  - intros r Hr. unfold andWhere in Hr.
    destruct (if hasWhere this then and_ this [VObj props]
              else where_ this [VObj props]) as [b| |] eqn:Hb;
      try discriminate Hr.
    cbn [bind] in Hr. injection Hr as <-.
    assert (aligned b) by (destruct (hasWhere this); auto).
    assumption.
  - intros r Hr. unfold orWhere in Hr.
    destruct (if hasWhere this then or_ this [VObj props]
              else where_ this [VObj props]) as [b| |] eqn:Hb;
      try discriminate Hr.
    cbn [bind] in Hr. injection Hr as <-.
    assert (aligned b) by (destruct (hasWhere this); auto).
    assumption.
Qed.

Lemma conditions_stay_aligned_witness :
  aligned
    (mkSQL "SELECT * FROM t WHERE (`a` IN (?,?) AND b = ?)"
       [VNum 1; VNum 2; VStr "x"] true None).
Proof.
  apply (proj1 (proj2
           (conditions_stay_aligned (new_SQL (Text "SELECT * FROM t") [])
              [("a", VObj [("$in", VArr [VNum 1; VNum 2])]); ("b", VStr "x")]
              eq_refl ltac:(discriminate) eq_refl eq_refl))).
  reflexivity.
Defined.

(** ** INSERT ... VALUES and UPDATE ... SET, further *)

Lemma values_loop_inserted (values keys : obj) :
  ordinary values = true ->
  (forall kv, In kv keys -> In kv values) ->
  forall recorded columnNames marks paramValues,
    values_loop values keys (recorded, columnNames, marks, paramValues)
    = Some
        (Returns
           (recorded_from (filter inserted keys) recorded,
            (columnNames ++ map quoted (filter inserted keys))%list,
            (marks ++ repeat "?" (List.length (filter inserted keys)))%list,
            (paramValues ++ map snd (filter inserted keys))%list)).
Proof.
  intros Hordinary. induction keys as [|[key v] keys IH];
    intros Hkeys recorded columnNames marks paramValues.
  - cbn. now rewrite !app_nil_r.
  - assert (Hown : hasOwnProperty values key = Some (Returns true)).
    { apply hasOwnProperty_ordinary; [assumption|].
      apply (has_own_in (key, v)), Hkeys. now left. }
    assert (Hrest : forall kv, In kv keys -> In kv values)
      by (intros kv Hin; apply Hkeys; now right).
    cbn [values_loop filter]. unfold values_step, inserted at 1 4 7 10.
    cbn [fst snd].
    destruct (reserved key); cbn [negb andb bind_open]; [now apply IH|].
    rewrite Hown. cbn [bind_open andb].
    destruct (is_function v); cbn [negb andb bind_open]; [now apply IH|].
    destruct (defined v); cbn [bind_open]; [|now apply IH].
    rewrite IH by assumption. unfold push, recorded_from, quoted.
    cbn [fold_left map List.length repeat fst snd].
    now rewrite <- !app_assoc.
Qed.

Lemma append_values (this : SQL) (f : fragment) (rest : list value) :
  values (append this f rest) = values this.
Proof. now destruct f. Qed.

Lemma values_mapping (this : SQL) (mapping : obj) :
  values this = None -> ordinary mapping = true ->
  values_ this (ValuesMap mapping)
  = Some
      (Returns
         (append
            (mkSQL (sql this) (params this) (hasWhere this)
               (Some (recorded_from (filter inserted mapping) [])))
            (Text ("(" ++ String.concat ","
                            (map quoted (filter inserted mapping))
                   ++ ") VALUES ("
                   ++ placeholders (List.length (filter inserted mapping))
                   ++ ")"))
            [VArr (map snd (filter inserted mapping))])).
Proof.
  intros Hvalues Hordinary. unfold values_. rewrite Hvalues.
  now rewrite values_loop_inserted by auto.
Qed.

(** A mapping with a property [hasOwnProperty] of its own has a key that
    is not a marker. *)
Lemma hidden_has_column (values : obj) :
  defined (lookup "hasOwnProperty" values) = true ->
  existsb (fun kv => negb (reserved (fst kv))) values = true.
Proof.
  induction values as [|[k v] values IH]; [discriminate|].
  cbn [lookup existsb fst]. destruct (k =? "hasOwnProperty") eqn:Hk.
  - apply String.eqb_eq in Hk as ->. reflexivity.
  - intros Hdefined. rewrite (IH Hdefined). apply orb_true_r.
Qed.

Lemma values_loop_throws (values keys : obj) :
  defined (lookup "hasOwnProperty" values) = true ->
  is_function (lookup "hasOwnProperty" values) = false ->
  existsb (fun kv => negb (reserved (fst kv))) keys = true ->
  forall st, values_loop values keys st = Some (Throws TypeError).
Proof.
  intros Hdefined Hfunction.
  induction keys as [|[key v] keys IH]; [discriminate|].
  cbn [existsb fst values_loop]. intros Hcolumn [[[recorded names] marks] ps].
  unfold values_step. destruct (reserved key); cbn [negb orb bind_open] in *.
  - now apply IH.
  - now rewrite hasOwnProperty_throws.
Qed.

Lemma set_loop_throws (values keys : obj) (originalValues : option obj) :
  defined (lookup "hasOwnProperty" values) = true ->
  is_function (lookup "hasOwnProperty" values) = false ->
  existsb (fun kv => negb (reserved (fst kv))) keys = true ->
  forall st, set_loop values originalValues keys st = Some (Throws TypeError).
Proof.
  intros Hdefined Hfunction.
  induction keys as [|[key v] keys IH]; [discriminate|].
  cbn [existsb fst set_loop]. intros Hcolumn [[recorded exprs] ps].
  unfold set_step. destruct (reserved key); cbn [negb orb bind_open] in *.
  - now apply IH.
  - now rewrite hasOwnProperty_throws.
Qed.

(** X14. [values] with a mapping lists, in the order of the mapping, the
    columns whose key is not a marker and whose value is neither a
    function nor [undefined], each between backticks, then as many
    placeholders, and binds their values in the same order; the builder
    keeps the columns in its property [values].  This is for a mapping
    that does not hide the method [hasOwnProperty]: a mapping with a
    column of that name whose value is not a function makes [values]
    throw a TypeError. *)
Theorem values_inserts (this : SQL) (mapping : obj) :
  values this = None ->
  (ordinary mapping = true ->
   values_ this (ValuesMap mapping)
   = Some
       (Returns
          (append
             (mkSQL (sql this) (params this) (hasWhere this)
                (Some (recorded_from (filter inserted mapping) [])))
             (Text ("(" ++ String.concat ","
                             (map quoted (filter inserted mapping))
                    ++ ") VALUES ("
                    ++ placeholders (List.length (filter inserted mapping))
                    ++ ")"))
             [VArr (map snd (filter inserted mapping))])))
  /\ (defined (lookup "hasOwnProperty" mapping) = true ->
      is_function (lookup "hasOwnProperty" mapping) = false ->
      values_ this (ValuesMap mapping) = Some (Throws TypeError)).
Proof.
  intros Hvalues. split.
  - now apply values_mapping.
  - intros Hdefined Hfunction. unfold values_. rewrite Hvalues.
    rewrite values_loop_throws; auto using hidden_has_column.
Qed.

Lemma values_inserts_witness :
  values_ (SQL_insert (Text "t") [])
    (ValuesMap [("a", VNum 1); ("$ignored", VNum 2); ("fn", VFunc);
                ("b", VUndefined); ("c", VNum 3)])
  = Some
      (Returns
         (mkSQL "INSERT INTO t (`a`,`c`) VALUES (?,?)" [VNum 1; VNum 3]
            false (Some [("a", VNum 1); ("c", VNum 3)])))
  /\ values_ (SQL_insert (Text "t") [])
       (ValuesMap [("a", VNum 1); ("hasOwnProperty", VNum 1)])
     = Some (Throws TypeError).
Proof.
  split.
  - exact (proj1 (values_inserts (SQL_insert (Text "t") [])
                    [("a", VNum 1); ("$ignored", VNum 2); ("fn", VFunc);
                     ("b", VUndefined); ("c", VNum 3)] eq_refl)
             eq_refl).
  - exact (proj2 (values_inserts (SQL_insert (Text "t") [])
                    [("a", VNum 1); ("hasOwnProperty", VNum 1)] eq_refl)
             eq_refl eq_refl).
Defined.

Lemma Returns_inj {A : Type} (a b : A) : Returns a = Returns b -> a = b.
Proof. now intros [= ->]. Qed.

Lemma Some_inj {A : Type} (a b : A) : Some a = Some b -> a = b.
Proof. now intros [= ->]. Qed.

(** Where the mapping does not hide [hasOwnProperty] and the embedding
    decides the comparisons, the loop of [set] ends. *)
Lemma set_loop_returns (values : obj) (originalValues : option obj) :
  ordinary values = true -> comparable originalValues values = true ->
  exists st,
    set_loop values originalValues values ([], [], []) = Some (Returns st).
Proof.
  intros Hordinary Hcomparable. destruct originalValues as [original|].
  - destruct (set_loop_decided values original values Hordinary
                (fun kv Hin => Hin) Hcomparable [] [] [])
      as [recorded Hloop].
    eexists. exact Hloop.
  - eexists. now apply set_loop_all.
Qed.

(** What [set] and [values] with a mapping return holds the property
    [values]. *)
Lemma set_records (this r : SQL) (mapping : obj) (original : option obj) :
  set_ this (SetValues mapping original) = Some (Returns r) ->
  values r <> None.
Proof.
  unfold set_. intros Hr.
  destruct (set_loop mapping original mapping ([], [], []))
    as [[[[recorded exprs] paramValues]| |]|]; try discriminate.
  cbn [bind_open] in Hr. apply Some_inj, Returns_inj in Hr. subst r.
  now rewrite append_values.
Qed.

Lemma values_records (this r : SQL) (mapping : obj) :
  values_ this (ValuesMap mapping) = Some (Returns r) -> values r <> None.
Proof.
  unfold values_. intros Hr. destruct (values this); [discriminate|].
  destruct (values_loop mapping mapping ([], [], [], []))
    as [[[[[recorded names] marks] paramValues]| |]|]; try discriminate.
  cbn [bind_open] in Hr. apply Some_inj, Returns_inj in Hr. subst r.
  now rewrite append_values.
Qed.

Lemma values_hidden (r : SQL) (arguments : values_arguments) :
  values r <> None -> values_ r arguments = Some (Throws TypeError).
Proof. unfold values_. now destruct (values r). Qed.

(** X15. [values] with a mapping and [set] with a mapping store the
    mapping in the property [values] of the builder, which hides the
    method of that name: on the builder they return, every call of
    [values] throws a TypeError.  They do return one when the mapping
    does not hide [hasOwnProperty] and, for [set], the comparisons with
    the original values are between primitives.  [values] with an array
    of column names stores nothing and can be called again. *)
Theorem values_hidden_by_property (this : SQL) (mapping : obj)
  (original : option obj) (columnNames : list string)
  (arguments : values_arguments) :
  values this = None ->
  (forall r, values_ this (ValuesMap mapping) = Some (Returns r) ->
             values_ r arguments = Some (Throws TypeError))
  /\ (forall r, set_ this (SetValues mapping original) = Some (Returns r) ->
                values_ r arguments = Some (Throws TypeError))
  /\ (ordinary mapping = true ->
      exists r, values_ this (ValuesMap mapping) = Some (Returns r))
  /\ (ordinary mapping = true -> comparable original mapping = true ->
      exists r, set_ this (SetValues mapping original) = Some (Returns r))
  /\ (exists r,
         values_ this (ValuesColumns columnNames) = Some (Returns r)
         /\ values r = None).
Proof.
  intros Hvalues. split; [|split; [|split; [|split]]].
  - intros r Hr. eapply values_hidden, values_records, Hr.
  - intros r Hr. eapply values_hidden, set_records, Hr.
  - intros Hordinary. eexists. now apply values_mapping.
  - intros Hordinary Hcomparable. unfold set_.
    destruct (set_loop_returns mapping original Hordinary Hcomparable)
      as [[[recorded exprs] paramValues] Hloop].
    rewrite Hloop. cbn [bind_open]. now eexists.
  - unfold values_. rewrite Hvalues. eexists. split; [reflexivity|].
    now rewrite append_values.
Qed.

Lemma values_hidden_by_property_witness :
  bind_open
    (values_ (SQL_insert (Text "t") []) (ValuesMap [("a", VNum 1)]))
    (fun r => values_ r (ValuesMap [("b", VNum 2)]))
  = Some (Throws TypeError).
Proof.
  destruct (proj1 (proj2 (proj2
              (values_hidden_by_property (SQL_insert (Text "t") [])
                 [("a", VNum 1)] None [] (ValuesMap [("b", VNum 2)])
                 eq_refl))) eq_refl) as [r Hr].
  rewrite Hr. cbn [bind_open].
  exact (proj1 (values_hidden_by_property (SQL_insert (Text "t") [])
                  [("a", VNum 1)] None [] (ValuesMap [("b", VNum 2)])
                  eq_refl) r Hr).
Defined.

(** X16. Without original values, [set] with a mapping that does not
    hide the method [hasOwnProperty] emits [`key` = ?] for every column
    whose key is not a marker and whose value is not a function, in the
    order of the mapping, joined by commas, and binds the values in that
    order.  A value [undefined] is kept and bound, where [values] leaves
    such a column out.  A mapping with a column named [hasOwnProperty]
    whose value is not a function makes [set] throw a TypeError, with
    original values or without. *)
Theorem set_all_columns (this : SQL) (mapping : obj)
  (original : option obj) :
  (ordinary mapping = true ->
   set_ this (SetValues mapping None)
   = Some
       (Returns
          (append
             (mkSQL (sql (append this (Text "SET") [])) (params this) false
                (Some (recorded_from (filter retained mapping) [])))
             (Text (String.concat ","
                      (map (fun kv => assignment (fst kv))
                         (filter retained mapping))))
             [VArr (map snd (filter retained mapping))])))
  /\ (defined (lookup "hasOwnProperty" mapping) = true ->
      is_function (lookup "hasOwnProperty" mapping) = false ->
      set_ this (SetValues mapping original) = Some (Throws TypeError))
  /\ set_ (SQL_update (Text "t") []) (SetValues [("a", VUndefined)] None)
     = Some (Returns
               (mkSQL "UPDATE t SET `a` = ?" [VUndefined] false
                  (Some [("a", VUndefined)])))
  /\ values_ (SQL_insert (Text "t") []) (ValuesMap [("a", VUndefined)])
     = Some (Returns
               (mkSQL "INSERT INTO t () VALUES ()" [] false (Some []))).
Proof.
  split; [|split; [|split; reflexivity]].
  - intros Hordinary. now apply set_all.
  - intros Hdefined Hfunction. unfold set_.
    rewrite set_loop_throws; auto using hidden_has_column.
Qed.

Lemma set_all_columns_witness :
  set_ (SQL_update (Text "t") [])
    (SetValues [("a", VNum 1); ("$skip", VNum 2); ("b", VUndefined)] None)
  = Some (Returns
            (mkSQL "UPDATE t SET `a` = ?,`b` = ?" [VNum 1; VUndefined] false
               (Some [("a", VNum 1); ("b", VUndefined)])))
  /\ set_ (SQL_update (Text "t") [])
       (SetValues [("hasOwnProperty", VStr "x")] (Some []))
     = Some (Throws TypeError).
Proof.
  split.
  - exact (proj1 (set_all_columns (SQL_update (Text "t") [])
                    [("a", VNum 1); ("$skip", VNum 2); ("b", VUndefined)]
                    None) eq_refl).
  - exact (proj1 (proj2 (set_all_columns (SQL_update (Text "t") [])
                           [("hasOwnProperty", VStr "x")] (Some [])))
             eq_refl eq_refl).
Defined.

Lemma set_loop_aligned (values keys : obj) (original : option obj) :
  plain_keys keys = true ->
  forall recorded setExpressions paramValues recorded' setExpressions'
         paramValues',
    set_loop values original keys (recorded, setExpressions, paramValues)
    = Some (Returns (recorded', setExpressions', paramValues')) ->
    total_placeholders setExpressions' + List.length paramValues
    = total_placeholders setExpressions + List.length paramValues'.
Proof.
  induction keys as [|[key v] keys IH]; intros Hkeys recorded exprs ps
    recorded' exprs' ps' Hloop.
  - cbn in Hloop. now inversion Hloop.
  - unfold plain_keys in *. cbn [forallb fst] in Hkeys.
    apply andb_true_iff in Hkeys as [Hkey Hrest].
    apply Nat.eqb_eq in Hkey. cbn [set_loop] in Hloop.
    destruct (set_step values original (recorded, exprs, ps) (key, v))
      as [[[[recorded1 exprs1] ps1]| |]|] eqn:Hstep; try discriminate.
    cbn [bind_open] in Hloop.
    specialize (IH Hrest _ _ _ _ _ _ Hloop).
    assert (total_placeholders exprs1 + List.length ps
            = total_placeholders exprs + List.length ps1).
    { unfold set_step in Hstep.
      destruct (reserved key); [now inversion Hstep|].
      destruct (hasOwnProperty values key) as [[own| |]|];
        try discriminate. cbn [bind_open] in Hstep.
      destruct (own && negb (is_function v)); [|now inversion Hstep].
      destruct (unchanged original key v) as [[|]|]; inversion Hstep; subst;
        [reflexivity|].
      unfold assignment. count_texts Hkey. lia. }
    lia.
Qed.

Lemma plain_keys_filter (f : string * value -> bool) (mapping : obj) :
  plain_keys mapping = true ->
  total_placeholders (map quoted (filter f mapping)) = 0.
Proof.
  unfold plain_keys, total_placeholders.
  induction mapping as [|[key v] mapping IH]; [reflexivity|].
  cbn [forallb filter fst]. intros Hkeys.
  apply andb_true_iff in Hkeys as [Hkey Hrest]. apply Nat.eqb_eq in Hkey.
  destruct (f (key, v)); [|now apply IH].
  cbn [map list_sum]. unfold quoted at 1. cbn [fst].
  rewrite !count_placeholders_append, Hkey. cbn.
  change (fold_right Nat.add 0 ?l) with (list_sum l). now rewrite IH.
Qed.

(** X17. The methods that bind parameters keep a builder with as many
    placeholders as parameters in that state, unless its whole text is a
    single placeholder: [set] and [values] with a mapping whose keys
    hold no placeholder and which does not hide [hasOwnProperty], the
    comparisons of [set] with the original values being between
    primitives; [limit] with a value that is neither [undefined] nor an
    array; [skipTake]; and [takePage] within the safe integers.  Each of
    these calls returns a builder.  [limit] without a value adds the
    placeholder and binds nothing. *)
Theorem binding_methods_stay_aligned (this : SQL) :
  aligned this -> sql this <> "?" ->
  (forall mapping original,
      plain_keys mapping = true -> ordinary mapping = true ->
      comparable original mapping = true ->
      exists r,
        set_ this (SetValues mapping original) = Some (Returns r)
        /\ aligned r)
  /\ (forall mapping,
         values this = None ->
         plain_keys mapping = true -> ordinary mapping = true ->
         exists r,
           values_ this (ValuesMap mapping) = Some (Returns r) /\ aligned r)
  /\ (forall rows,
         defined rows = true -> (forall elems, rows <> VArr elems) ->
         aligned (limit this rows))
  /\ (forall skip take, aligned (skipTake this skip take))
  /\ (forall page rowsPerPage,
         safe_integer page = true -> safe_integer rowsPerPage = true ->
         safe_integer ((page - 1) * rowsPerPage) = true ->
         exists r, takePage this page rowsPerPage = Some r /\ aligned r)
  /\ ~ aligned (limit this VUndefined).
Proof.
  intros Hthis Hq. split; [|split; [|split; [|split; [|split]]]].
  - intros mapping original Hkeys Hordinary Hcomparable. unfold set_.
    destruct (set_loop_returns mapping original Hordinary Hcomparable)
      as [[[recorded exprs] paramValues] Hloop].
    rewrite Hloop. cbn [bind_open]. eexists. split; [reflexivity|].
    apply set_loop_aligned in Hloop; [|assumption].
    change (total_placeholders []) with 0 in Hloop.
    destruct (append_keyword_aligned this "SET" Hthis Hq eq_refl)
      as [Haligned Hnot]; [cbn; lia|].
    apply (append_aligned
             (mkSQL (sql (append this (Text "SET") []))
                (params (append this (Text "SET") []))
                (hasWhere (append this (Text "SET") [])) (Some recorded))
             (Text (String.concat "," exprs)) [VArr paramValues]);
      [exact Haligned | exact Hnot |].
    cbn [fragment_text appended].
    rewrite count_placeholders_concat by reflexivity.
    cbn [List.length] in Hloop. lia.
  - intros mapping Hvalues Hkeys Hordinary.
    rewrite values_mapping by assumption.
    eexists. split; [reflexivity|].
    apply (append_aligned
             (mkSQL (sql this) (params this) (hasWhere this)
                (Some (recorded_from (filter inserted mapping) []))));
      [exact Hthis | exact Hq |].
    cbn [fragment_text appended]. unfold placeholders.
    rewrite !count_placeholders_append, count_placeholders_marks.
    rewrite count_placeholders_concat by reflexivity.
    rewrite plain_keys_filter by assumption.
    rewrite length_map.
    change (count_placeholders "(") with 0.
    change (count_placeholders ") VALUES (") with 0.
    change (count_placeholders ")") with 0. lia.
  - intros rows Hdef Harr. apply append_aligned; [assumption..|].
    destruct rows; try discriminate; try reflexivity.
    now destruct (Harr elems).
  - intros skip take. now apply append_aligned.
  - intros page rowsPerPage Hpage Hrows Hproduct. unfold takePage.
    rewrite Hpage, Hrows, Hproduct. cbn [andb].
    eexists. split; [reflexivity|]. now apply append_aligned.
  - unfold aligned, limit in *.
    rewrite append_params_appended. cbn [appended].
    rewrite app_nil_r.
    destruct (Nat.lt_ge_cases 1 (String.length (sql this))) as [Hlen|Hlen].
    + rewrite append_text_sql_long by assumption.
      rewrite !count_placeholders_append. cbn. lia.
    + rewrite append_text_sql_short by assumption.
      rewrite (short_text_plain _ Hlen Hq) in Hthis. cbn. lia.
Qed.

Lemma binding_methods_stay_aligned_witness :
  exists r,
    set_ (SQL_update (Text "t") [])
      (SetValues [("a", VNum 1); ("b", VStr "x"); ("c", VStr "7")]
         (Some [("a", VNum 2); ("b", VStr "x"); ("c", VNum 7)]))
    = Some (Returns r)
    /\ aligned r.
Proof.
  exact (proj1 (binding_methods_stay_aligned (SQL_update (Text "t") [])
                  eq_refl ltac:(discriminate))
           [("a", VNum 1); ("b", VStr "x"); ("c", VStr "7")]
           (Some [("a", VNum 2); ("b", VStr "x"); ("c", VNum 7)])
           eq_refl eq_refl eq_refl).
Defined.

(** ** Debug rendering, further *)

Lemma firstn_succ_nil {A : Type} (n : nat) (xs : list A) :
  firstn (S n) xs = [] -> xs = [].
Proof. now destruct xs. Qed.

Lemma replace_placeholders_agree (text : string) (ps ps' : list value) :
  forall paramIndex,
    firstn (count_placeholders text) (skipn paramIndex ps)
    = firstn (count_placeholders text) (skipn paramIndex ps') ->
    replace_placeholders text ps paramIndex
    = replace_placeholders text ps' paramIndex.
Proof.
  induction text as [|c rest IH]; intros i Hagree; [reflexivity|].
  cbn [replace_placeholders count_placeholders] in *.
  destruct (c =? "?")%char; cbn [Nat.add] in Hagree;
    [|now rewrite (IH _ Hagree)].
  destruct (i <? List.length ps)%nat eqn:Hi,
           (i <? List.length ps')%nat eqn:Hi'.
  - apply Nat.ltb_lt in Hi, Hi'.
    rewrite (skipn_nth_cons VUndefined ps i Hi) in Hagree.
    rewrite (skipn_nth_cons VUndefined ps' i Hi') in Hagree.
    cbn [firstn] in Hagree. injection Hagree as Hhead Htail.
    now rewrite Hhead, (IH (S i) Htail).
  - apply Nat.ltb_lt in Hi. apply Nat.ltb_ge in Hi'.
    rewrite (skipn_nth_cons VUndefined ps i Hi) in Hagree.
    rewrite (skipn_all2 ps' Hi') in Hagree. discriminate.
  - apply Nat.ltb_ge in Hi. apply Nat.ltb_lt in Hi'.
    rewrite (skipn_nth_cons VUndefined ps' i Hi') in Hagree.
    rewrite (skipn_all2 ps Hi) in Hagree. discriminate.
  - apply Nat.ltb_ge in Hi, Hi'. rewrite IH; [reflexivity|].
    now rewrite (skipn_all2 ps Hi), (skipn_all2 ps' Hi'), !firstn_nil.
Qed.

(** X18. [toString] reads as many parameters as the text has
    placeholders and no more: two builders of the same text whose
    parameters agree that far render alike, so a parameter beyond the
    placeholders is neither rendered nor checked for its type. *)
Theorem toString_reads_reached_parameters (this other : SQL) :
  sql this = sql other ->
  firstn (count_placeholders (sql this)) (params this)
  = firstn (count_placeholders (sql this)) (params other) ->
  toString this = toString other.
Proof.
  intros Hsql Hparams. unfold toString. rewrite <- Hsql.
  now apply replace_placeholders_agree.
Qed.

Lemma toString_reads_reached_parameters_witness :
  toString (mkSQL "id=?" [VNum 5; VBool true] false None)
  = toString (mkSQL "id=?" [VNum 5] false None).
Proof.
  exact (toString_reads_reached_parameters
           (mkSQL "id=?" [VNum 5; VBool true] false None)
           (mkSQL "id=?" [VNum 5] false None) eq_refl eq_refl).
Defined.

Lemma replace_placeholders_none (text : string) (paramIndex : nat) :
  replace_placeholders text [] paramIndex = Returns text.
Proof.
  induction text as [|c rest IH]; [reflexivity|].
  cbn [replace_placeholders List.length Nat.ltb Nat.leb]. rewrite IH.
  now destruct (c =? "?")%char.
Qed.

(** X19. A builder without parameters renders as its text, its
    placeholders left as they are, and a builder whose text has no
    placeholder renders as its text whatever its parameters are;
    [toString] does not throw in either case. *)
Theorem toString_nothing_to_substitute (text : string) (ps : list value)
  (flag : bool) (vs : option obj) :
  toString (mkSQL text [] flag vs) = Returns text
  /\ (count_placeholders text = 0 ->
      toString (mkSQL text ps flag vs) = Returns text).
Proof.
  split; [apply replace_placeholders_none|].
  intros Hplain.
  unfold toString. cbn [sql params].
  rewrite (replace_placeholders_agree text ps []).
  - apply replace_placeholders_none.
  - now rewrite Hplain.
Qed.

Lemma toString_nothing_to_substitute_witness :
  toString (mkSQL "DROP TABLE `t`" [VBool true; VFunc] false None)
  = Returns "DROP TABLE `t`".
Proof.
  exact (proj2 (toString_nothing_to_substitute "DROP TABLE `t`"
                  [VBool true; VFunc] false None) eq_refl).
Defined.

Lemma double_quotes_injective (a : string) :
  forall b, double_quotes a = double_quotes b -> a = b.
Proof.
  induction a as [|c a IH]; intros [|d b] Heq; cbn in Heq.
  - reflexivity.
  - destruct (d =? "'")%char; discriminate.
  - destruct (c =? "'")%char; discriminate.
  - destruct (c =? "'")%char eqn:Hc, (d =? "'")%char eqn:Hd.
    + apply Ascii.eqb_eq in Hc, Hd. subst.
      injection Heq as Heq. now rewrite (IH _ Heq).
    + apply Ascii.eqb_eq in Hc. subst. injection Heq as Hcd _.
      subst. now rewrite Ascii.eqb_refl in Hd.
    + apply Ascii.eqb_eq in Hd. subst. injection Heq as Hcd _.
      subst. now rewrite Ascii.eqb_refl in Hc.
    + injection Heq as -> Heq. now rewrite (IH _ Heq).
Qed.

Lemma append_cancel_r (a b c : string) : a ++ c = b ++ c -> a = b.
Proof.
  revert b. induction a as [|x a IH]; intros [|y b] Heq; cbn in Heq.
  - reflexivity.
  - apply (f_equal String.length) in Heq. cbn in Heq.
    rewrite length_append in Heq. lia.
  - apply (f_equal String.length) in Heq. cbn in Heq.
    rewrite length_append in Heq. lia.
  - injection Heq as -> Heq. now rewrite (IH _ Heq).
Qed.

(** X20. The rendering of string parameters loses nothing: two strings
    with the same quoted literal are the same string. *)
Theorem quoteString_injective (a b : string) :
  quoteString a = quoteString b -> a = b.
Proof.
  unfold quoteString. intros Heq. cbn in Heq. injection Heq as Heq.
  apply append_cancel_r in Heq. now apply double_quotes_injective.
Qed.

Lemma quoteString_injective_witness :
  "O'Brien" = "O'Brien".
Proof.
  exact (quoteString_injective "O'Brien" "O'Brien" eq_refl).
Defined.

(** ** SELECT *)

Lemma append_cancel_l (a b c : string) : a ++ b = a ++ c -> b = c.
Proof.
  induction a as [|x a IH]; cbn; intros Heq; [assumption|].
  injection Heq as Heq. now apply IH.
Qed.

(** X21. [select] without argument selects [*]; with a text and further
    arguments it binds those as parameters; with an array of columns it
    does not list the columns as they are: the array is taken for a
    mapping of its indices, so each column is followed by [as] and its
    index between backticks. *)
Theorem select_array_aliases (this : SQL) (column : string)
  (columns : list string) (text : string) (rest : list value) :
  sql (select this SelectNone) = lead this ++ "SELECT *"
  /\ params (select this (SelectText text rest))
     = params (append this (Text text) rest)
  /\ sql (select this (SelectList (column :: columns) rest))
     = lead this ++ "SELECT "
       ++ String.concat ", "
            (map aliased (indexed_texts 0 (column :: columns)))
  /\ sql (select this (SelectList (column :: columns) rest))
     <> lead this ++ "SELECT " ++ String.concat ", " (column :: columns)
  /\ sql (select empty (SelectList ["name"; "email"] []))
     = "SELECT name as `0`, email as `1`".
Proof.
  assert (Hlist : sql (select this (SelectList (column :: columns) rest))
                  = lead this ++ "SELECT "
                    ++ String.concat ", "
                         (map aliased (indexed_texts 0 (column :: columns)))).
  { unfold select.
    destruct (keyword_then_fragment this "SELECT"
                (Text (String.concat ", "
                         (map aliased (indexed_texts 0 (column :: columns)))))
                rest) as [Hsql _]; [cbn; lia|].
    rewrite Hsql. cbn [followed fragment_text].
    now rewrite !append_assoc. }
  split; [|split; [|split; [exact Hlist|split; [|reflexivity]]]].
  - unfold select.
    destruct (keyword_then_fragment this "SELECT" (Text "*") [])
      as [Hsql _]; [cbn; lia|].
    rewrite Hsql. cbn [followed fragment_text]. now rewrite !append_assoc.
  - unfold select.
    now destruct (keyword_then_fragment this "SELECT" (Text text) rest)
      as [_ Hparams]; [cbn; lia|].
  - rewrite Hlist. intros Heq.
    apply append_cancel_l, append_cancel_l in Heq.
    cbn [indexed_texts map] in Heq. unfold aliased at 1 in Heq.
    cbn [fst snd] in Heq.
    destruct columns as [|next columns].
    + cbn [indexed_texts map String.concat] in Heq.
      rewrite <- (append_empty_r column) in Heq at 2.
      apply append_cancel_l in Heq. discriminate.
    + cbn [indexed_texts map] in Heq. rewrite !concat_cons_more in Heq.
      rewrite !append_assoc in Heq.
      apply append_cancel_l in Heq. discriminate.
Qed.

(** ** Tables and indices *)

Lemma namedValue_loop_own (d keys : dict) :
  existsb (fun kv => fst kv =? "hasOwnProperty") d = false ->
  (forall kv, In kv keys -> In kv d) ->
  namedValue_loop d keys
  = Returns (find (fun kv => negb (reserved (fst kv))) keys).
Proof.
  intros Hplain. induction keys as [|[key v] keys IH]; intros Hkeys;
    [reflexivity|].
  cbn [namedValue_loop find fst].
  destruct (reserved key); cbn [negb].
  - apply IH. intros kv Hin. apply Hkeys. now right.
  - unfold dict_hasOwnProperty. rewrite Hplain.
    assert (Hown : existsb (fun kv => fst kv =? key) d = true).
    { apply existsb_exists. exists (key, v).
      split; [apply Hkeys; now left | apply String.eqb_refl]. }
    now rewrite Hown.
Qed.

Lemma namedValue_loop_hidden (d keys : dict) :
  existsb (fun kv => fst kv =? "hasOwnProperty") d = true ->
  existsb (fun kv => negb (reserved (fst kv))) keys = true ->
  namedValue_loop d keys = Throws TypeError.
Proof.
  intros Hhidden. induction keys as [|[key v] keys IH]; [discriminate|].
  cbn [namedValue_loop existsb fst].
  destruct (reserved key); cbn [negb orb]; [exact IH|].
  intros _. unfold dict_hasOwnProperty. now rewrite Hhidden.
Qed.

(** [namedValue] returns the usable entry of a mapping that has one;
    reading the name of what it returns for any other mapping throws,
    if the call has not thrown itself. *)
Lemma namedValue_usable (d : dict) :
  match usable_entry d with
  | Some entry => namedValue d = Returns (Some entry)
  | None => namedValue d = Returns None \/ namedValue d = Throws TypeError
  end.
Proof.
  unfold usable_entry, namedValue.
  destruct (existsb (fun kv => fst kv =? "hasOwnProperty") d) eqn:Hhidden.
  - right. apply namedValue_loop_hidden; [assumption|].
    apply existsb_exists in Hhidden as ([k v] & Hin & Hk).
    apply existsb_exists. exists (k, v). split; [assumption|].
    cbn [fst] in *. apply String.eqb_eq in Hk as ->. reflexivity.
  - rewrite namedValue_loop_own by auto.
    destruct (find (fun kv => negb (reserved (fst kv))) d);
      [reflexivity | now left].
Qed.

Lemma index_columnDefs_ascending (columns : list index_column) :
  forallb plain_name columns = true ->
  forall st,
    index_columnDefs (map ascending columns) st = index_columnDefs columns st.
Proof.
  induction columns as [|column columns IH]; intros Hnames [defs names];
    [reflexivity|].
  cbn [forallb] in Hnames. apply andb_true_iff in Hnames as [Hname Hrest].
  destruct column as [name|d]; cbn [map ascending index_columnDefs].
  - cbn [plain_name] in Hname. apply andb_true_iff in Hname as [Hkey Hown].
    apply negb_true_iff in Hkey, Hown.
    unfold namedValue. cbn [namedValue_loop]. rewrite Hkey.
    unfold dict_hasOwnProperty. cbn [existsb fst]. rewrite Hown.
    rewrite String.eqb_refl. cbn [orb bind]. now apply IH.
  - destruct (namedValue d) as [[[name v]|]| |]; cbn [bind];
      try reflexivity.
    now apply IH.
Qed.

(** X22. In [createIndex] a column given by its name is a column in
    ascending order: replacing every such name by the mapping of the
    name to ASC gives the same statement, provided the name does not
    begin with a marker character and is not [hasOwnProperty]; the
    mapping of such a name makes [createIndex] throw, where the name by
    itself does not. *)
Theorem createIndex_name_is_ascending (options : index_options) :
  forallb plain_name (columns options) = true ->
  createIndex
    (mkIndex (tableName options) (map ascending (columns options))
       (unique options) (indexName options))
  = createIndex options.
Proof.
  intros Hnames. unfold createIndex. cbn [columns unique indexName tableName].
  now rewrite index_columnDefs_ascending.
Qed.

Lemma createIndex_name_is_ascending_witness :
  createIndex (mkIndex (Some "users") [ColumnOrder [("email", "ASC")]]
                 true None)
  = createIndex (mkIndex (Some "users") [ColumnName "email"] true None)
  /\ createIndex (mkIndex (Some "users") [ColumnName "email"] true None)
     = Returns
         (mkSQL "CREATE UNIQUE INDEX users_email ON users ( `email` ASC );"
            [] false None)
  /\ createIndex (mkIndex (Some "t") [ColumnOrder [(".x", "ASC")]] false None)
     = Throws TypeError
  /\ createIndex
       (mkIndex (Some "t") [ColumnOrder [("hasOwnProperty", "ASC")]] false
          None)
     = Throws TypeError
  /\ createIndex (mkIndex (Some "t") [ColumnName "hasOwnProperty"] false None)
     = Returns
         (mkSQL
            "CREATE INDEX t_hasOwnProperty ON t ( `hasOwnProperty` ASC );"
            [] false None).
Proof.
  split; [|repeat split; reflexivity].
  exact (createIndex_name_is_ascending
           (mkIndex (Some "users") [ColumnName "email"] true None) eq_refl).
Defined.

Lemma index_columnDefs_entries (columns : list index_column)
  (entries : list (string * string)) :
  map index_entry columns = map Some entries ->
  forall columnDefs columnNames,
    index_columnDefs columns (columnDefs, columnNames)
    = Returns ((columnDefs ++ map column_def entries)%list,
               (columnNames ++ map fst entries)%list).
Proof.
  revert entries.
  induction columns as [|column columns IH]; intros [|entry entries] Hmap
    defs names; try discriminate.
  - cbn. now rewrite !app_nil_r.
  - cbn [map] in Hmap. injection Hmap as Hentry Hrest.
    cbn [index_columnDefs].
    destruct column as [name|d]; cbn [index_entry] in Hentry.
    + injection Hentry as <-. rewrite (IH _ Hrest). unfold push.
      cbn [map fst]. now rewrite <- !app_assoc.
    + pose proof (namedValue_usable d) as Hnv. rewrite Hentry in Hnv.
      rewrite Hnv. cbn [bind]. destruct entry as [name v].
      rewrite (IH _ Hrest). unfold push. cbn [map fst].
      now rewrite <- !app_assoc.
Qed.

Lemma index_columnDefs_throws (columns : list index_column) :
  In None (map index_entry columns) ->
  forall st, index_columnDefs columns st = Throws TypeError.
Proof.
  induction columns as [|column columns IH]; intros Hin [defs names];
    [contradiction|].
  cbn [map] in Hin. cbn [index_columnDefs].
  destruct column as [name|d].
  - destruct Hin as [Hin|Hin]; [discriminate | now apply IH].
  - cbn [index_entry] in Hin. pose proof (namedValue_usable d) as Hnv.
    destruct (usable_entry d) as [[name v]|].
    + rewrite Hnv. cbn [bind].
      destruct Hin as [Hin|Hin]; [discriminate | now apply IH].
    + now destruct Hnv as [-> | ->].
Qed.

(** X23. [createIndex] builds CREATE INDEX, with UNIQUE when asked, the
    name of the index, the table and the columns with their orders in
    the order they are given, neither name being quoted; an index
    without a name, or with the empty name, is named after the table and
    the columns, joined by underscores.  A column is given by its name
    or by a mapping, whose first entry that is not a marker names it; a
    mapping without such an entry, or with a key [hasOwnProperty], makes
    it throw a TypeError. *)
Theorem createIndex_statement (options : index_options)
  (entries : list (string * string)) :
  (map index_entry (columns options) = map Some entries ->
   createIndex options
   = Returns
       (mkSQL
          ("CREATE " ++ (if unique options then "UNIQUE " else "")
           ++ "INDEX "
           ++ (if no_text (indexName options)
               then option_text (tableName options) ++ "_"
                    ++ String.concat "_" (map fst entries)
               else option_text (indexName options))
           ++ " ON " ++ option_text (tableName options) ++ " ( "
           ++ String.concat "," (map column_def entries) ++ " );")
          [] false None))
  /\ (In None (map index_entry (columns options)) ->
      createIndex options = Throws TypeError).
Proof.
  split.
  - intros Hentries. unfold createIndex.
    rewrite (index_columnDefs_entries _ _ Hentries). reflexivity.
  - intros Hnone. unfold createIndex.
    now rewrite index_columnDefs_throws.
Qed.

Lemma createIndex_statement_witness :
  createIndex
    (mkIndex (Some "Users")
       [ColumnOrder [("lastName", "ASC")]; ColumnOrder [("firstName", "DESC")]]
       true None)
  = Returns
      (mkSQL
         ("CREATE UNIQUE INDEX Users_lastName_firstName ON Users "
          ++ "( `lastName` ASC,`firstName` DESC );")
         [] false None)
  /\ createIndex (mkIndex (Some "Users") [ColumnOrder [("$x", "ASC")]]
                    false (Some "ix"))
     = Throws TypeError
  /\ createIndex
       (mkIndex (Some "Users")
          [ColumnOrder [("$x", "ASC"); ("hasOwnProperty", "DESC")]]
          false (Some "ix"))
     = Throws TypeError.
Proof.
  split; [|split].
  - exact (proj1 (createIndex_statement
             (mkIndex (Some "Users")
                [ColumnOrder [("lastName", "ASC")];
                 ColumnOrder [("firstName", "DESC")]] true None)
             [("lastName", "ASC"); ("firstName", "DESC")]) eq_refl).
  - apply (proj2 (createIndex_statement
             (mkIndex (Some "Users") [ColumnOrder [("$x", "ASC")]]
                false (Some "ix")) [])).
    cbn. now left.
  - apply (proj2 (createIndex_statement
             (mkIndex (Some "Users")
                [ColumnOrder [("$x", "ASC"); ("hasOwnProperty", "DESC")]]
                false (Some "ix")) [])).
    cbn. now left.
Defined.

Lemma table_columnDefs_entries (columns : list dict)
  (entries : list (string * string)) :
  map usable_entry columns = map Some entries ->
  forall columnDefs,
    table_columnDefs columns columnDefs
    = Returns (columnDefs ++ map column_def entries)%list.
Proof.
  revert entries.
  induction columns as [|column columns IH]; intros [|entry entries] Hmap
    defs; try discriminate.
  - cbn. now rewrite app_nil_r.
  - cbn [map] in Hmap. injection Hmap as Hentry Hrest.
    cbn [table_columnDefs]. pose proof (namedValue_usable column) as Hnv.
    rewrite Hentry in Hnv. rewrite Hnv. cbn [bind].
    destruct entry as [name v].
    rewrite (IH _ Hrest). unfold push. cbn [map].
    now rewrite <- app_assoc.
Qed.

Lemma table_columnDefs_throws (columns : list dict) :
  In None (map usable_entry columns) ->
  forall columnDefs, table_columnDefs columns columnDefs = Throws TypeError.
Proof.
  induction columns as [|column columns IH]; intros Hin defs;
    [contradiction|].
  cbn [map] in Hin. cbn [table_columnDefs].
  pose proof (namedValue_usable column) as Hnv.
  destruct (usable_entry column) as [[name v]|].
  - rewrite Hnv. cbn [bind].
    destruct Hin as [Hin|Hin]; [discriminate | now apply IH].
  - now destruct Hnv as [-> | ->].
Qed.

(** X24. [createTable] builds CREATE TABLE with the name of the table
    between backticks and, for each column mapping, in their order, the
    first entry whose key is not a marker: the name between backticks
    and the type; TEMP stands between CREATE and TABLE when asked, and
    two spaces when not.  A column mapping without such an entry, or
    with a key [hasOwnProperty], makes it throw a TypeError.
    [dropTable] builds DROP TABLE with the name between backticks. *)
Theorem createTable_statement (table : string) (temp : bool)
  (table_columns : list dict) (entries : list (string * string)) :
  (map usable_entry table_columns = map Some entries ->
   createTable table temp table_columns
   = Returns
       (mkSQL
          ("CREATE " ++ (if temp then "TEMP" else "") ++ " TABLE `" ++ table
           ++ "` ( " ++ String.concat "," (map column_def entries) ++ " );")
          [] false None))
  /\ (In None (map usable_entry table_columns) ->
      createTable table temp table_columns = Throws TypeError)
  /\ dropTable table = mkSQL ("DROP TABLE `" ++ table ++ "`") [] false None.
Proof.
  split; [|split; [|reflexivity]].
  - intros Hentries. unfold createTable.
    rewrite (table_columnDefs_entries _ _ Hentries). reflexivity.
  - intros Hnone. unfold createTable.
    now rewrite table_columnDefs_throws.
Qed.

Lemma createTable_statement_witness :
  createTable "Users" false
    [[("id", "INTEGER PRIMARY KEY AUTOINCREMENT")];
     [("$comment", "x"); ("firstName", "STRING")]]
  = Returns
      (mkSQL
         ("CREATE  TABLE `Users` "
          ++ "( `id` INTEGER PRIMARY KEY AUTOINCREMENT,`firstName` STRING );")
         [] false None)
  /\ createTable "Users" true [[("id", "INTEGER")]; []] = Throws TypeError
  /\ createTable "Users" true [[("hasOwnProperty", "INTEGER")]]
     = Throws TypeError.
Proof.
  split; [|split].
  - exact (proj1 (createTable_statement "Users" false
             [[("id", "INTEGER PRIMARY KEY AUTOINCREMENT")];
              [("$comment", "x"); ("firstName", "STRING")]]
             [("id", "INTEGER PRIMARY KEY AUTOINCREMENT");
              ("firstName", "STRING")]) eq_refl).
  - apply (proj1 (proj2 (createTable_statement "Users" true
             [[("id", "INTEGER")]; []] []))).
    cbn. tauto.
  - apply (proj1 (proj2 (createTable_statement "Users" true
             [[("hasOwnProperty", "INTEGER")]] []))).
    cbn. tauto.
Defined.

(** ** The statements of the database helpers *)

Lemma append_text_long_record (this : SQL) (text : string) :
  1 < String.length (sql this) ->
  append this (Text text) []
  = mkSQL (sql this ++ " " ++ text) (params this) false (values this).
Proof.
  intros Hlen. apply Nat.ltb_lt in Hlen.
  unfold append, append_text, delete_hasWhere. cbn [sql params hasWhere values].
  now rewrite Hlen.
Qed.

(** X25. The helpers of the database pass the condition to [where] as
    its only argument, so a condition that is not given, or [null],
    leaves the statement without WHERE: [delete] then deletes every row
    of the table, [update] updates every row, [findOne] and [findMany]
    read the whole table.  The empty mapping gives WHERE TRUE, with the
    same effect. *)
Theorem Database_absent_condition (table : string) (condition : value)
  (mapping : obj) :
  nullish condition = true ->
  Database_delete table condition
  = Returns (mkSQL ("DELETE FROM " ++ table) [] false None)
  /\ Database_find table condition
     = Returns (mkSQL ("SELECT * FROM " ++ table) [] false None)
  /\ Database_update table mapping condition
     = set_ (SQL_update (Text table) []) (SetValues mapping None)
  /\ Database_delete table (VObj [])
     = Returns (mkSQL ("DELETE FROM " ++ table ++ " WHERE TRUE") [] true None).
Proof.
  intros Hnull. unfold Database_delete, Database_find, Database_update.
  assert (Hwhere : forall this, where_ this [condition] = Returns this).
  { intros this. unfold where_. cbn [List.length Nat.eqb nth orb andb].
    now rewrite Hnull. }
  rewrite !Hwhere. repeat split.
  - destruct (set_ (SQL_update (Text table) []) (SetValues mapping None))
      as [[r| |]|]; cbn [bind_open]; [now rewrite Hwhere | reflexivity..].
  - unfold where_. cbn [List.length Nat.eqb nth nullish orb andb].
    change (buildCondition [VObj []]) with (Returns (Text "TRUE")).
    cbn [bind].
    change (SQL_delete (Text table) [])
      with (mkSQL ("DELETE FROM " ++ table) [] false None).
    rewrite (append_text_long_record _ "WHERE")
      by (cbn [sql]; rewrite length_append; cbn; lia).
    rewrite (append_text_long_record _ "TRUE")
      by (cbn [sql]; rewrite !length_append; cbn; lia).
    cbn [sql params values set_hasWhere]. now rewrite !append_assoc.
Qed.

Lemma Database_absent_condition_witness :
  Database_delete "users" VUndefined
  = Returns (mkSQL "DELETE FROM users" [] false None)
  /\ Database_update "users" [("active", VNum 0)] VNull
     = Some (Returns (mkSQL "UPDATE users SET `active` = ?" [VNum 0] false
                        (Some [("active", VNum 0)]))).
Proof.
  split.
  - exact (proj1 (Database_absent_condition "users" VUndefined [] eq_refl)).
  - exact (proj1 (proj2 (proj2
             (Database_absent_condition "users" VNull [("active", VNum 0)]
                eq_refl)))).
Defined.

(** ** Side data for custom functions *)

(** X26. [fndata] stores the data after those already stored and binds,
    as the parameter, the index at which the data can be found again;
    what was stored before stays at its index, and the text of the
    builder is not touched. *)
Theorem fndata_binds_index (this : SQL) (_fndata : option (list value))
  (data : value) :
  let old := match _fndata with
             | None => []
             | Some store => store
             end in
  let index := List.length old in
  exists this' store',
    fndata this _fndata data = (this', Some store')
    /\ sql this' = sql this
    /\ params this' = (params this ++ [VNum (Z.of_nat index)])%list
    /\ nth_error store' index = Some data
    /\ (forall i, i < index -> nth_error store' i = nth_error old i)
    /\ List.length store' = S index.
Proof.
  cbv zeta. unfold fndata, push.
  eexists. eexists. split; [reflexivity|]. cbn [sql params].
  repeat split.
  - rewrite nth_error_app2 by lia. now rewrite Nat.sub_diag.
  - intros i Hi. now rewrite nth_error_app1.
  - rewrite length_app. cbn. lia.
Qed.
